(** * UK-drill-AI: the conversion job lifecycle

    A shallow embedding of [server/storage.ts] (the in-memory job store),
    of [server/routes.ts] (the upload pipeline and the background runner
    [processAudioFile]) and of the part of [shared/schema.ts] they use,
    followed by the properties of the job lifecycle.

    Conventions of the embedding
    - a [Date] is its [getTime()] value, an integer number of milliseconds;
    - [null] and an absent optional property are both [None];
    - a JavaScript [Map] is an association list in insertion order, because
      [Map.prototype.values] iterates in that order and the listing depends
      on it;
    - code with effects ([async] functions, the file system, the console)
      is written in a state-and-exception monad over a [World]. *)

From Stdlib Require Import ZArith List Permutation Sorted SpecFloat.
From stdpp Require Import gmap strings list.

Local Open Scope string_scope.
Local Open Scope Z_scope.

(** ** shared/schema.ts *)

Inductive Intensity := soft | medium | heavy.
Inductive Status := pending | processing | completed | failed.

#[global] Instance Intensity_eq_dec : EqDecision Intensity.
Proof. solve_decision. Defined.
#[global] Instance Status_eq_dec : EqDecision Status.
Proof. solve_decision. Defined.

(** The [metadata] column is [jsonb]; the only value the application ever
    stores there is the object literal of the upload handler. *)
Record Metadata := { fileSize : Z; mimeType : string }.

(** [Conversion = typeof conversions.$inferSelect] *)
Module Conversion.
Record t := {
  id : string;
  originalFilename : string;
  originalFilePath : string;
  convertedFilePath : option string;
  intensity : Intensity;
  status : Status;
  progress : Z;
  metadata : option Metadata;
  createdAt : Z;
  completedAt : option Z
}.
End Conversion.

(** [InsertConversion]: the insert schema omits [id], [createdAt] and
    [completedAt]; columns that are nullable or have a default are
    optional. *)
Module InsertConversion.
Record t := {
  originalFilename : string;
  originalFilePath : string;
  convertedFilePath : option string;
  intensity : Intensity;
  status : option Status;
  progress : option Z;
  metadata : option Metadata
}.
End InsertConversion.

(** [Partial<Conversion>]: every property may be left out.  A property
    that is named carries a value of the column's type. *)
Module Partial.
Record t := {
  id : option string;
  originalFilename : option string;
  originalFilePath : option string;
  convertedFilePath : option (option string);
  intensity : option Intensity;
  status : option Status;
  progress : option Z;
  metadata : option (option Metadata);
  createdAt : option Z;
  completedAt : option (option Z)
}.
End Partial.

(** The ten properties of a record, and the values they hold, so that a
    statement can range over "every field". *)
Inductive Field :=
| F_id | F_originalFilename | F_originalFilePath | F_convertedFilePath
| F_intensity | F_status | F_progress | F_metadata | F_createdAt
| F_completedAt.

Inductive Value :=
| VText (s : string)
| VTextOrNull (s : option string)
| VIntensity (i : Intensity)
| VStatus (s : Status)
| VNumber (n : Z)
| VJson (m : option Metadata)
| VDate (d : Z)
| VDateOrNull (d : option Z).

Definition field_of (f : Field) (c : Conversion.t) : Value :=
  match f with
  | F_id => VText (Conversion.id c)
  | F_originalFilename => VText (Conversion.originalFilename c)
  | F_originalFilePath => VText (Conversion.originalFilePath c)
  | F_convertedFilePath => VTextOrNull (Conversion.convertedFilePath c)
  | F_intensity => VIntensity (Conversion.intensity c)
  | F_status => VStatus (Conversion.status c)
  | F_progress => VNumber (Conversion.progress c)
  | F_metadata => VJson (Conversion.metadata c)
  | F_createdAt => VDate (Conversion.createdAt c)
  | F_completedAt => VDateOrNull (Conversion.completedAt c)
  end.

Definition named (f : Field) (u : Partial.t) : option Value :=
  match f with
  | F_id => VText <$> Partial.id u
  | F_originalFilename => VText <$> Partial.originalFilename u
  | F_originalFilePath => VText <$> Partial.originalFilePath u
  | F_convertedFilePath => VTextOrNull <$> Partial.convertedFilePath u
  | F_intensity => VIntensity <$> Partial.intensity u
  | F_status => VStatus <$> Partial.status u
  | F_progress => VNumber <$> Partial.progress u
  | F_metadata => VJson <$> Partial.metadata u
  | F_createdAt => VDate <$> Partial.createdAt u
  | F_completedAt => VDateOrNull <$> Partial.completedAt u
  end.

(** ** JavaScript helpers *)

(** [a ?? b] *)
Definition nullish {A} (a : option A) (b : A) : A :=
  match a with Some v => v | None => b end.

(** One property of [{ ...existing, ...updates }]: the later spread wins
    where it has the property. *)
Definition spread_prop {A} (existing : A) (updates : option A) : A :=
  match updates with Some v => v | None => existing end.

(** [{ ...existing, ...updates }] *)
Definition spread (existing : Conversion.t) (updates : Partial.t) : Conversion.t :=
  {| Conversion.id := spread_prop (Conversion.id existing) (Partial.id updates);
     Conversion.originalFilename :=
       spread_prop (Conversion.originalFilename existing) (Partial.originalFilename updates);
     Conversion.originalFilePath :=
       spread_prop (Conversion.originalFilePath existing) (Partial.originalFilePath updates);
     Conversion.convertedFilePath :=
       spread_prop (Conversion.convertedFilePath existing) (Partial.convertedFilePath updates);
     Conversion.intensity :=
       spread_prop (Conversion.intensity existing) (Partial.intensity updates);
     Conversion.status := spread_prop (Conversion.status existing) (Partial.status updates);
     Conversion.progress := spread_prop (Conversion.progress existing) (Partial.progress updates);
     Conversion.metadata := spread_prop (Conversion.metadata existing) (Partial.metadata updates);
     Conversion.createdAt :=
       spread_prop (Conversion.createdAt existing) (Partial.createdAt updates);
     Conversion.completedAt :=
       spread_prop (Conversion.completedAt existing) (Partial.completedAt updates) |}.

(** *** Map *)

Module JsMap.
Section Ops.
Context {V : Type}.

Definition t := list (string * V).

Definition empty : t := [].

(** [Map.prototype.get] *)
Fixpoint get (k : string) (m : t) : option V :=
  match m with
  | [] => None
  | (k', v) :: rest => if String.eqb k k' then Some v else get k rest
  end.

(** [Map.prototype.set]: an existing key keeps its place in the
    iteration order, a new key goes to the end. *)
Fixpoint set (k : string) (v : V) (m : t) : t :=
  match m with
  | [] => [(k, v)]
  | (k', v') :: rest =>
      if String.eqb k k' then (k, v) :: rest else (k', v') :: set k v rest
  end.

(** [Array.from(m.keys())] and [Array.from(m.values())] *)
Definition keys (m : t) : list string := map fst m.
Definition values (m : t) : list V := map snd m.

(** [Map.prototype.size] *)
Definition size (m : t) : nat := length m.
End Ops.
Arguments t : clear implicits.
End JsMap.

(** *** Array.prototype.sort

    The sort is stable (ECMAScript 2019).  [compareFn a b <= 0] keeps [a]
    in front of [b]; an element is inserted in front of the elements it
    compares equal to, and the array is consumed from its end, so equal
    elements keep their order. *)
Section ArraySort.
Context {A : Type} (compareFn : A -> A -> Z).

Fixpoint sort_insert (a : A) (sorted : list A) : list A :=
  match sorted with
  | [] => [a]
  | b :: rest =>
      if compareFn a b <=? 0 then a :: b :: rest else b :: sort_insert a rest
  end.

Definition Array_sort (arr : list A) : list A :=
  fold_right sort_insert [] arr.
End ArraySort.

(** ** server/storage.ts *)

Module MemStorage.
(** [private conversions: Map<string, Conversion>] *)
Definition t := JsMap.t Conversion.t.

(** [constructor()] *)
Definition new : t := JsMap.empty.

(** [createConversion]; [uuid] is the value of [randomUUID()] and [now]
    the value of [new Date()] at the call.  For [convertedFilePath] and
    [metadata], [?? null] turns an absent property into [null]: both are
    [None] here. *)
Definition createConversion (uuid : string) (now : Z)
    (insertConversion : InsertConversion.t) (this : t) : Conversion.t * t :=
  let conversion :=
    {| Conversion.originalFilename := InsertConversion.originalFilename insertConversion;
       Conversion.originalFilePath := InsertConversion.originalFilePath insertConversion;
       Conversion.intensity := InsertConversion.intensity insertConversion;
       Conversion.id := uuid;
       Conversion.createdAt := now;
       Conversion.completedAt := None;
       Conversion.progress := nullish (InsertConversion.progress insertConversion) 0;
       Conversion.status := nullish (InsertConversion.status insertConversion) pending;
       Conversion.convertedFilePath := InsertConversion.convertedFilePath insertConversion;
       Conversion.metadata := InsertConversion.metadata insertConversion |} in
  (conversion, JsMap.set uuid conversion this).

(** [getConversion] *)
Definition getConversion (id : string) (this : t) : option Conversion.t * t :=
  (JsMap.get id this, this).

(** [updateConversion] *)
Definition updateConversion (id : string) (updates : Partial.t) (this : t)
    : option Conversion.t * t :=
  match JsMap.get id this with
  | None => (None, this)
  | Some existing =>
      let updated := spread existing updates in
      (Some updated, JsMap.set id updated this)
  end.

(** The comparator of [getAllConversions]. *)
Definition byCreatedAtDesc (a b : Conversion.t) : Z :=
  Conversion.createdAt b - Conversion.createdAt a.

(** [getAllConversions] *)
Definition getAllConversions (this : t) : list Conversion.t * t :=
  (Array_sort byCreatedAtDesc (JsMap.values this), this).
End MemStorage.

(** ** The server process

    What the code reads and writes besides its arguments: the singleton
    [storage], the [uploads/] directory, the clock behind [new Date()],
    the console, the random source behind [randomUUID()] and the upload
    file names, and the background runs that have been started. *)

Inductive JsError :=
| mkError (message : string)              (* new Error(message) *)
| SystemError (code : string) (path : string)   (* a failed fs call *)
| MulterError (code : string).

Inductive LogLine :=
| ConsoleLog (message : string)
| ConsoleError (message : string) (error : option JsError).

(** An entry of the file system; a file's content is not looked at by the
    code, only its length is kept. *)
Inductive Node := RegularFile (byteLength : Z) | Directory.

Record World := {
  store : MemStorage.t;
  disk : gmap string Node;
  clock : Z;
  console : list LogLine;
  random : nat -> string;
  drawn : nat;
  started : list string
}.

Definition with_store (s : MemStorage.t) (w : World) : World :=
  {| store := s; disk := disk w; clock := clock w; console := console w;
     random := random w; drawn := drawn w; started := started w |}.
Definition with_disk (d : gmap string Node) (w : World) : World :=
  {| store := store w; disk := d; clock := clock w; console := console w;
     random := random w; drawn := drawn w; started := started w |}.
Definition with_clock (t : Z) (w : World) : World :=
  {| store := store w; disk := disk w; clock := t; console := console w;
     random := random w; drawn := drawn w; started := started w |}.
Definition with_console (c : list LogLine) (w : World) : World :=
  {| store := store w; disk := disk w; clock := clock w; console := c;
     random := random w; drawn := drawn w; started := started w |}.
Definition with_drawn (n : nat) (w : World) : World :=
  {| store := store w; disk := disk w; clock := clock w; console := console w;
     random := random w; drawn := n; started := started w |}.
Definition with_started (l : list string) (w : World) : World :=
  {| store := store w; disk := disk w; clock := clock w; console := console w;
     random := random w; drawn := drawn w; started := l |}.

(** How a piece of code ends: with a value, or with a thrown error (for an
    [async] function: a rejected promise). *)
Inductive Completion (A : Type) :=
| Normal (value : A)
| Throw (error : JsError).
Arguments Normal {A} value.
Arguments Throw {A} error.

Definition Task (A : Type) : Type := World -> Completion A * World.

Definition ret {A} (a : A) : Task A := fun w => (Normal a, w).

Definition bind {A B} (c : Task A) (k : A -> Task B) : Task B :=
  fun w =>
    match c w with
    | (Normal a, w') => k a w'
    | (Throw e, w') => (Throw e, w')
    end.

Definition throw {A} (e : JsError) : Task A := fun w => (Throw e, w).

(** [try { body } catch (e) { handler }] *)
Definition try_catch {A} (body : Task A) (handler : JsError -> Task A) : Task A :=
  fun w =>
    match body w with
    | (Normal a, w') => (Normal a, w')
    | (Throw e, w') => handler e w'
    end.

Notation "'let!' x ':=' c 'in' k" := (bind c (fun x => k))
  (at level 10, x name, c at level 100, k at level 200).
Notation "c1 '>>' c2" := (bind c1 (fun _ => c2))
  (at level 100, c2 at level 200, right associativity).

(** [for (const x of xs) body(x)] *)
Fixpoint forEach {A} (xs : list A) (body : A -> Task unit) : Task unit :=
  match xs with
  | [] => ret tt
  | x :: rest => body x >> forEach rest body
  end.

(** *** Node built-ins *)

Definition console_log (message : string) : Task unit :=
  fun w => (Normal tt, with_console (console w ++ [ConsoleLog message]) w).

Definition console_error (message : string) (error : option JsError) : Task unit :=
  fun w => (Normal tt, with_console (console w ++ [ConsoleError message error]) w).

(** [new Date()] *)
Definition new_Date : Task Z := fun w => (Normal (clock w), w).

(** [randomUUID()], and any other draw from the random source. *)
Definition randomUUID : Task string :=
  fun w => (Normal (random w (drawn w)), with_drawn (S (drawn w)) w).

(** [fs.existsSync]: true for files and directories alike, never throws. *)
Definition fs_existsSync (path : string) : Task bool :=
  fun w => (Normal (bool_decide (is_Some (disk w !! path))), w).

(** [fs.copyFileSync]: the source must be a regular file and the
    destination must not be a directory. *)
Definition fs_copyFileSync (src dest : string) : Task unit :=
  fun w =>
    match disk w !! src with
    | None => (Throw (SystemError "ENOENT" src), w)
    | Some Directory => (Throw (SystemError "EISDIR" src), w)
    | Some (RegularFile n) =>
        match disk w !! dest with
        | Some Directory => (Throw (SystemError "EISDIR" dest), w)
        | _ => (Normal tt, with_disk (<[dest := RegularFile n]> (disk w)) w)
        end
    end.

(** [await new Promise(resolve => setTimeout(resolve, ms))]: the clock
    moves on by [ms] and, while this task is suspended, the rest of the
    process runs; [meanwhile] is what it does to the world. *)
Definition sleep (ms : Z) (meanwhile : World -> World) : Task unit :=
  fun w => (Normal tt, meanwhile (with_clock (clock w + ms) w)).

(** *** Numbers

    A JavaScript number is an IEEE 754 double. *)
Definition prec : Z := 53.
Definition emax : Z := 1024.

Definition number_of_nat (n : nat) : spec_float :=
  match Z.of_nat n with
  | Zpos p => binary_normalize prec emax (Zpos p) 0 false
  | _ => S754_zero false
  end.
Definition number_of_Z (n : Z) : spec_float :=
  match n with
  | Zpos p => binary_normalize prec emax (Zpos p) 0 false
  | Zneg p => SFopp (binary_normalize prec emax (Zpos p) 0 false)
  | Z0 => S754_zero false
  end.

(** [Math.round]: the integer nearest to the argument, a tie going up.
    [None] is for NaN and the infinities, which have no integer value. *)
Definition Math_round (x : spec_float) : option Z :=
  match x with
  | S754_zero _ => Some 0
  | S754_finite s m e =>
      let n := if s then Zneg m else Zpos m in
      Some (if 0 <=? e then n * 2 ^ e else (2 * n + 2 ^ (- e)) / 2 ^ (1 - e))
  | _ => None
  end.

(** ** server/storage.ts: the interface and the exported singleton *)

Record IStorage := {
  createConversion : InsertConversion.t -> Task Conversion.t;
  getConversion : string -> Task (option Conversion.t);
  updateConversion : string -> Partial.t -> Task (option Conversion.t);
  getAllConversions : Task (list Conversion.t)
}.

(** A method of the singleton acts on the map held in the world. *)
Definition on_store {A} (method : MemStorage.t -> A * MemStorage.t) : Task A :=
  fun w => let (a, s) := method (store w) in (Normal a, with_store s w).

(** [export const storage = new MemStorage()] *)
Module Singleton.
Definition storage : IStorage :=
  {| createConversion insertConversion :=
       let! id := randomUUID in
       let! now := new_Date in
       on_store (MemStorage.createConversion id now insertConversion);
     getConversion id := on_store (MemStorage.getConversion id);
     updateConversion id updates := on_store (MemStorage.updateConversion id updates);
     getAllConversions := on_store MemStorage.getAllConversions |}.
End Singleton.

(** Another implementation of [IStorage], for the runs in which a storage
    call fails: the same map, but a write is rejected (the promise of
    [updateConversion] rejects, nothing is stored) for the updates that
    [rejects] selects.  With [rejects] constantly false it is the
    singleton. *)
Definition rejectingStorage (rejects : Partial.t -> bool) : IStorage :=
  {| createConversion := createConversion Singleton.storage;
     getConversion := getConversion Singleton.storage;
     updateConversion id updates :=
       if rejects updates then throw (mkError "write rejected")
       else updateConversion Singleton.storage id updates;
     getAllConversions := getAllConversions Singleton.storage |}.

(** The same, with reads that can fail as well: [getConversion] rejects
    for the ids that [rejectsRead] selects.  With [rejectsRead] constantly
    false it is [rejectingStorage rejects]. *)
Definition faultyStorage (rejectsRead : string -> bool) (rejects : Partial.t -> bool)
    : IStorage :=
  {| createConversion := createConversion Singleton.storage;
     getConversion id :=
       if rejectsRead id then throw (mkError "read rejected")
       else getConversion Singleton.storage id;
     updateConversion := updateConversion (rejectingStorage rejects);
     getAllConversions := getAllConversions Singleton.storage |}.

(** ** server/routes.ts: the background runner *)

(** [`uploads/converted_${conversionId}.mp3`] *)
Definition outputPathOf (conversionId : string) : string :=
  "uploads/converted_" ++ conversionId ++ ".mp3".

(** The three object literals the runner passes to [updateConversion]. *)
Definition processingUpdate (progress : Z) : Partial.t :=
  {| Partial.id := None; Partial.originalFilename := None;
     Partial.originalFilePath := None; Partial.convertedFilePath := None;
     Partial.intensity := None;
     Partial.status := Some processing;
     Partial.progress := Some progress;
     Partial.metadata := None; Partial.createdAt := None;
     Partial.completedAt := None |}.

Definition completedUpdate (progress : Z) (outputPath : string) (now : Z) : Partial.t :=
  {| Partial.id := None; Partial.originalFilename := None;
     Partial.originalFilePath := None;
     Partial.convertedFilePath := Some (Some outputPath);
     Partial.intensity := None;
     Partial.status := Some completed;
     Partial.progress := Some progress;
     Partial.metadata := None; Partial.createdAt := None;
     Partial.completedAt := Some (Some now) |}.

Definition failedUpdate : Partial.t :=
  {| Partial.id := None; Partial.originalFilename := None;
     Partial.originalFilePath := None; Partial.convertedFilePath := None;
     Partial.intensity := None;
     Partial.status := Some failed;
     Partial.progress := Some 0;
     Partial.metadata := None; Partial.createdAt := None;
     Partial.completedAt := None |}.

Definition totalSteps : nat := 10.

(** [Math.round((step / totalSteps) * 100)].  The quotient and the product
    are finite for every step of the loop, so the rounding has a value;
    [0] stands for the other case. *)
Definition progressOf (step : nat) : Z :=
  nullish
    (Math_round
       (SFmul prec emax
          (SFdiv prec emax (number_of_nat step) (number_of_nat totalSteps))
          (number_of_Z 100)))
    0.

Section Runner.
(** The storage the routes call, and what the rest of the process does
    to the world during the delay of each step. *)
Variable storage : IStorage.
Variable meanwhile : nat -> World -> World.

(** The inner [try]/[catch] of the last step: copy the original file to
    the output path. *)
Definition copyOriginal (conversion : Conversion.t) (outputPath : string) : Task unit :=
  try_catch
    (let! found := fs_existsSync (Conversion.originalFilePath conversion) in
     if found then
       fs_copyFileSync (Conversion.originalFilePath conversion) outputPath >>
       console_log ("Created converted file: " ++ outputPath)
     else
       console_error
         ("Original file not found: " ++ Conversion.originalFilePath conversion) None)
    (fun copyError => console_error "Error creating converted file:" (Some copyError)).

(** The body of the [for] loop. *)
Definition loopBody (conversionId : string) (conversion : Conversion.t) (step : nat)
    : Task unit :=
  sleep 2000 (meanwhile step) >>
  let progress := progressOf step in
  if (step =? totalSteps)%nat then
    let outputPath := outputPathOf conversionId in
    copyOriginal conversion outputPath >>
    let! now := new_Date in
    let! _ := updateConversion storage conversionId
                (completedUpdate progress outputPath now) in
    ret tt
  else
    let! _ := updateConversion storage conversionId (processingUpdate progress) in
    ret tt.

(** The first [n] iterations of [for (let step = 1; step <= totalSteps; step++)]. *)
Definition iterations (conversionId : string) (conversion : Conversion.t) (n : nat)
    : Task unit :=
  forEach (seq 1 n) (loopBody conversionId conversion).

(** [processAudioFile] *)
Definition processAudioFile (conversionId : string) : Task unit :=
  try_catch
    (let! conversion := getConversion storage conversionId in
     match conversion with
     | None => ret tt
     | Some conversion => iterations conversionId conversion totalSteps
     end)
    (fun error =>
       console_error "Processing error:" (Some error) >>
       let! _ := updateConversion storage conversionId failedUpdate in
       ret tt).
End Runner.

(** ** server/routes.ts: the upload route *)

(** The [audio] part of the multipart form as it arrives. *)
Module Incoming.
Record t := { originalname : string; mimetype : string; size : Z }.
End Incoming.

(** [Express.Multer.File], the properties the handler reads. *)
Module MulterFile.
Record t := { originalname : string; mimetype : string; size : Z; path : string }.
End MulterFile.

Record UploadRequest := {
  audio : option Incoming.t;           (* the file part, if any *)
  intensity : option string            (* req.body.intensity *)
}.

Inductive Json :=
| JMessage (message : string)
| JInvalid (message : string) (errors : list string)
| JConversion (conversion : Conversion.t).

Record Response := { statusCode : Z; json : Json }.

Definition allowedTypes : list string :=
  ["audio/mpeg"; "audio/wav"; "audio/mp4"; "audio/m4a"].

(** [Array.prototype.includes] on strings *)
Definition includes (xs : list string) (x : string) : bool :=
  existsb (String.eqb x) xs.

(** [fileFilter]: [cb(null, true)] is [Normal true], [cb(error)] is
    [Throw error]. *)
Definition fileFilter (file : Incoming.t) : Completion bool :=
  if includes allowedTypes (Incoming.mimetype file) then Normal true
  else Throw (mkError "Invalid file type. Only MP3, WAV, and M4A files are allowed.").

(** [limits.fileSize] *)
Definition fileSize_limit : Z := 50 * 1024 * 1024.

(** [fs.writeFile] of [n] bytes, as multer's disk storage does it. *)
Definition fs_write (path : string) (n : Z) : Task unit :=
  fun w => (Normal tt, with_disk (<[path := RegularFile n]> (disk w)) w).

(** [upload.single('audio')], multer's middleware under the options of
    the source ([dest], [fileFilter], [limits]), after multer's
    documentation: a file the filter refuses with an error, or one whose
    length reaches the limit (the parser raises its limit event as soon as
    the count of bytes read reaches [fileSize]), fails the request with
    that error and leaves nothing on disk (the part written before the
    limit was hit is removed); an accepted file is stored under [dest]
    with a random name, which is drawn before the file is read. *)
Definition upload_single (part : option Incoming.t) : Task (option MulterFile.t) :=
  match part with
  | None => ret None
  | Some file =>
      match fileFilter file with
      | Throw error => throw error
      | Normal false => ret None
      | Normal true =>
          let! name := randomUUID in
          let path := "uploads/" ++ name in
          if fileSize_limit <=? Incoming.size file
          then throw (MulterError "LIMIT_FILE_SIZE")
          else
            fs_write path (Incoming.size file) >>
            ret (Some {| MulterFile.originalname := Incoming.originalname file;
                         MulterFile.mimetype := Incoming.mimetype file;
                         MulterFile.size := Incoming.size file;
                         MulterFile.path := path |})
      end
  end.

(** The object handed to [insertConversionSchema.safeParse]; of its
    properties only [intensity] comes from the client unchecked. *)
Module Unvalidated.
Record t := {
  originalFilename : string;
  originalFilePath : string;
  intensity : string;
  status : Status;
  progress : Z;
  metadata : Metadata
}.
End Unvalidated.

(** The [enum] of the [intensity] column. *)
Definition parseIntensity (s : string) : option Intensity :=
  if String.eqb s "soft" then Some soft
  else if String.eqb s "medium" then Some medium
  else if String.eqb s "heavy" then Some heavy
  else None.

(** [insertConversionSchema.safeParse]: the data on success, the paths of
    the offending properties otherwise. *)
Definition safeParse (value : Unvalidated.t) : InsertConversion.t + list string :=
  match parseIntensity (Unvalidated.intensity value) with
  | None => inr ["intensity"]
  | Some i =>
      inl {| InsertConversion.originalFilename := Unvalidated.originalFilename value;
             InsertConversion.originalFilePath := Unvalidated.originalFilePath value;
             InsertConversion.convertedFilePath := None;
             InsertConversion.intensity := i;
             InsertConversion.status := Some (Unvalidated.status value);
             InsertConversion.progress := Some (Unvalidated.progress value);
             InsertConversion.metadata := Some (Unvalidated.metadata value) |}
  end.

(** [s || d] on an optional string: the empty string is falsy too. *)
Definition or_else (s : option string) (d : string) : string :=
  match s with
  | None => d
  | Some v => if String.eqb v "" then d else v
  end.

(** A call of an [async] function that is not awaited: the run is started
    and its outcome reaches nobody. *)
Definition start (conversionId : string) : Task unit :=
  fun w => (Normal tt, with_started (started w ++ [conversionId]) w).

(** Modelled from the spec: the error-handling middleware of the
    application, registered in [server/index.ts], which is not among the
    sources.  It receives the error multer passes to [next]; after the
    spec a failed validation is answered with a 400-class status and a
    message. *)
Definition errorMiddleware (error : JsError) : Task Response :=
  let message :=
    match error with
    | mkError m => m
    | SystemError code _ => code
    | MulterError code => code
    end in
  ret {| statusCode := 400; json := JMessage message |}.

Section Routes.
Variable storage : IStorage.

(** The handler of [app.post("/api/upload", ...)]; [file] is [req.file]. *)
Definition uploadHandler (file : option MulterFile.t) (intensity : option string)
    : Task Response :=
  try_catch
    (match file with
     | None => ret {| statusCode := 400; json := JMessage "No file uploaded" |}
     | Some file =>
         let validationResult :=
           safeParse
             {| Unvalidated.originalFilename := MulterFile.originalname file;
                Unvalidated.originalFilePath := MulterFile.path file;
                Unvalidated.intensity := or_else intensity "medium";
                Unvalidated.status := pending;
                Unvalidated.progress := 0;
                Unvalidated.metadata :=
                  {| fileSize := MulterFile.size file;
                     mimeType := MulterFile.mimetype file |} |} in
         match validationResult with
         | inr errors =>
             ret {| statusCode := 400; json := JInvalid "Invalid request data" errors |}
         | inl data =>
             let! conversion := createConversion storage data in
             start (Conversion.id conversion) >>
             ret {| statusCode := 200; json := JConversion conversion |}
         end
     end)
    (fun error =>
       console_error "Upload error:" (Some error) >>
       ret {| statusCode := 500; json := JMessage "Upload failed" |}).

(** [POST /api/upload]: multer first, then the handler; an error of the
    middleware goes to the error handler and the route handler is not
    run. *)
Definition postUpload (req : UploadRequest) : Task Response :=
  fun w =>
    match upload_single (audio req) w with
    | (Throw error, w') => errorMiddleware error w'
    | (Normal file, w') => uploadHandler file (intensity req) w'
    end.
End Routes.

(** ** server/routes.ts: the routes that read *)

(** What a route sends: a status with a JSON object, the array of
    [res.json(conversions)], or the file of [res.download(path, filename)]. *)
Inductive Answer :=
| Answered (response : Response)
| Listed (conversions : list Conversion.t)
| Download (path : string) (filename : string).

(** The text of an intensity, as a template literal prints it. *)
Definition intensityText (i : Intensity) : string :=
  match i with
  | soft => "soft"
  | medium => "medium"
  | heavy => "heavy"
  end.

Section ReadRoutes.
Variable storage : IStorage.
(** [path.parse(p).name], Node's own; the routes only pass its result on. *)
Variable parsedName : string -> string.

(** [GET /api/conversions/:id] *)
Definition getConversionRoute (id : string) : Task Answer :=
  try_catch
    (let! conversion := getConversion storage id in
     match conversion with
     | None =>
         ret (Answered {| statusCode := 404; json := JMessage "Conversion not found" |})
     | Some conversion =>
         ret (Answered {| statusCode := 200; json := JConversion conversion |})
     end)
    (fun error =>
       console_error "Get conversion error:" (Some error) >>
       ret (Answered {| statusCode := 500; json := JMessage "Failed to get conversion" |})).

(** [GET /api/conversions] *)
Definition getConversionsRoute : Task Answer :=
  try_catch
    (let! conversions := getAllConversions storage in
     ret (Listed conversions))
    (fun error =>
       console_error "Get conversions error:" (Some error) >>
       ret (Answered {| statusCode := 500; json := JMessage "Failed to get conversions" |})).

(** [GET /api/download/:id].  [!conversion.convertedFilePath] holds for
    [null] and for the empty string. *)
Definition downloadRoute (id : string) : Task Answer :=
  try_catch
    (let! conversion := getConversion storage id in
     match conversion with
     | None => ret (Answered {| statusCode := 404; json := JMessage "File not found" |})
     | Some conversion =>
         match Conversion.convertedFilePath conversion with
         | None => ret (Answered {| statusCode := 404; json := JMessage "File not found" |})
         | Some convertedFilePath =>
             if String.eqb convertedFilePath ""
             then ret (Answered {| statusCode := 404; json := JMessage "File not found" |})
             else
               let! found := fs_existsSync convertedFilePath in
               if negb found
               then ret (Answered {| statusCode := 404;
                                     json := JMessage "File not found on disk" |})
               else
                 let filename :=
                   parsedName (Conversion.originalFilename conversion) ++ "_drill_" ++
                   intensityText (Conversion.intensity conversion) ++ ".mp3" in
                 ret (Download convertedFilePath filename)
         end
     end)
    (fun error =>
       console_error "Download error:" (Some error) >>
       ret (Answered {| statusCode := 500; json := JMessage "Download failed" |})).
End ReadRoutes.

(** ** client/src/pages/home.tsx *)

Module Home.
(** [enabled] of the status query: poll while the job is pending or
    processing. *)
Definition pollingEnabled (currentConversion : option Conversion.t) : bool :=
  match currentConversion with
  | None => false
  | Some c =>
      bool_decide (Conversion.status c = pending)
      || bool_decide (Conversion.status c = processing)
  end.

(** The update of [currentConversion] made while rendering: the fetched
    record replaces the local one when it is the same job and its status
    or its progress differs.  The result is the state after the render. *)
Definition integrate (conversionStatus currentConversion : option Conversion.t)
    : option Conversion.t :=
  match conversionStatus, currentConversion with
  | Some status, Some current =>
      if String.eqb (Conversion.id status) (Conversion.id current) then
        if negb (bool_decide (Conversion.status status = Conversion.status current))
           || negb (Conversion.progress status =? Conversion.progress current)
        then Some status
        else Some current
      else Some current
  | _, _ => currentConversion
  end.

(** [getConvertedAudioUrl] *)
Definition getConvertedAudioUrl (currentConversion : option Conversion.t) : option string :=
  match currentConversion with
  | None => None
  | Some c =>
      match Conversion.status c, Conversion.convertedFilePath c with
      | completed, Some path =>
          if String.eqb path "" then None else Some ("/api/download/" ++ Conversion.id c)
      | _, _ => None
      end
  end.
End Home.

(** ** client/src/components/ProcessingProgress.tsx *)

Module ProcessingProgress.
Definition processingSteps : list (string * Z) :=
  [("Analyzing audio structure", 10);
   ("Extracting tempo and key", 20);
   ("Generating 808 patterns", 30);
   ("Adding hi-hat sequences", 45);
   ("Processing bass lines", 60);
   ("Applying vocal effects", 75);
   ("Mixing and mastering", 85);
   ("Finalizing output", 95);
   ("Conversion complete", 100)].

(** One firing of the interval: the updater passed to
    [setAnimatedProgress].  The effect is set up again whenever
    [animatedProgress] changes, so the [step] it computed is the one for
    the value [prev] the updater receives. *)
Definition tick (targetProgress prev : Z) : Z :=
  let step := if prev <? targetProgress then 1 else -1 in
  if Z.abs (prev - targetProgress) <? 2 then targetProgress
  else prev + step * 2.

(** [Array.prototype.findIndex]: [-1] when no element passes. *)
Fixpoint findIndexFrom {A} (i : Z) (predicate : A -> bool) (xs : list A) : Z :=
  match xs with
  | [] => -1
  | x :: rest => if predicate x then i else findIndexFrom (i + 1) predicate rest
  end.
Definition findIndex {A} (predicate : A -> bool) (xs : list A) : Z :=
  findIndexFrom 0 predicate xs.

(** The step shown for a progress value: [currentStep] after the effect. *)
Definition stepIndex (targetProgress : Z) : Z :=
  findIndex (fun step => targetProgress <=? snd step) processingSteps.
Definition showStep (targetProgress currentStep : Z) : Z :=
  let index := stepIndex targetProgress in
  if 0 <=? index then index else currentStep.
End ProcessingProgress.

(** ** client/src/components/WaveformVisualization.tsx

    The sampling loop of [generateWaveform]: the channel data is cut into
    200 blocks and each block gives the mean of the absolute values of its
    samples.  The samples of the [Float32Array] are read as doubles. *)

Module Waveform.
Definition samples : nat := 200.

(** [Math.floor(rawData.length / samples)]; a length is an integer that
    a double holds exactly, and so is the quotient rounded down. *)
Definition blockSize (rawData : list spec_float) : nat :=
  (length rawData / samples)%nat.

(** [Math.abs(rawData[k])]; past the end the element is [undefined] and
    its absolute value NaN. *)
Definition absAt (rawData : list spec_float) (k : nat) : spec_float :=
  match rawData !! k with
  | Some x => SFabs x
  | None => S754_nan
  end.

(** The inner loop: [sum] after the block that starts at [blockStart]. *)
Definition blockSum (rawData : list spec_float) (blockStart : nat) : spec_float :=
  fold_left (fun sum j => SFadd prec emax sum (absAt rawData (blockStart + j)))
    (seq 0 (blockSize rawData)) (S754_zero false).

(** [filteredData] after the outer loop. *)
Definition filteredData (rawData : list spec_float) : list spec_float :=
  map (fun i =>
         SFdiv prec emax (blockSum rawData (blockSize rawData * i))
           (number_of_nat (blockSize rawData)))
    (seq 0 samples).
End Waveform.

(** * Vocabulary of the statements *)

(** [a] may stand in front of [b] in a listing that is newest first. *)
Definition newest_first (a b : Conversion.t) : Prop :=
  Conversion.createdAt b <= Conversion.createdAt a.

(** The records created at instant [t], in the order of the list. *)
Definition created_at (t : Z) (l : list Conversion.t) : list Conversion.t :=
  List.filter (fun c => Conversion.createdAt c =? t) l.

(** The record of a job in a world. *)
Definition job (id : string) (w : World) : option Conversion.t :=
  JsMap.get id (store w).

(** What the rest of the process does during the delays leaves the record
    of job [id] alone: the runner of a job is the only writer of its
    record. *)
Definition leaves (id : string) (meanwhile : nat -> World -> World) : Prop :=
  forall step w, job id (meanwhile step w) = job id w.

(** The world in which step [step] of the runner resumes after its delay,
    when it went to sleep in [w]. *)
Definition resumed (meanwhile : nat -> World -> World) (step : nat) (w : World) : World :=
  meanwhile step (with_clock (clock w + 2000) w).

(** The update of step [step], made at instant [now]. *)
Definition stepUpdate (id : string) (step : nat) (now : Z) : Partial.t :=
  if (step =? totalSteps)%nat
  then completedUpdate (progressOf step) (outputPathOf id) now
  else processingUpdate (progressOf step).

Definition terminal (s : Status) : Prop := s = completed \/ s = failed.

(** One move of a job's record from [a] to [b] (or none, when [b] is [a])
    that the lifecycle allows. *)
Definition lifecycle_step (a b : Conversion.t) : Prop :=
  (terminal (Conversion.status a) -> b = a) /\
  (Conversion.status a <> pending -> Conversion.status b <> pending) /\
  (Conversion.progress a <= Conversion.progress b \/
   (Conversion.status b = failed /\ Conversion.progress b = 0)).

(** [convertedFilePath] is set exactly when the job is completed. *)
Definition path_iff_completed (c : Conversion.t) : Prop :=
  Conversion.convertedFilePath c <> None <-> Conversion.status c = completed.

(** The record of job [id] goes from the one in [s] to the one in [s'] by
    a move the lifecycle allows. *)
Definition moves (id : string) (s s' : World) : Prop :=
  exists a b, job id s = Some a /\ job id s' = Some b /\ lifecycle_step a b.

(** A record as the upload handler has it created. *)
Definition just_created (j : Conversion.t) : Prop :=
  Conversion.status j = pending /\ Conversion.progress j = 0 /\
  Conversion.convertedFilePath j = None.

(** The record of a job created as [j] after [n] iterations of its
    runner. *)
Inductive phase (id : string) (j : Conversion.t) : nat -> Conversion.t -> Prop :=
| phase_created : phase id j 0 j
| phase_processing n :
    (1 <= n < totalSteps)%nat ->
    phase id j n (spread j (processingUpdate (progressOf n)))
| phase_completed now :
    phase id j totalSteps
      (spread j (completedUpdate (progressOf totalSteps) (outputPathOf id) now)).

(** Where a run stands after [n] iterations: all of them done, or stopped
    by a rejected write after [m] of them. *)
Definition reached (id : string) (j : Conversion.t) (n : nat)
    (r : Completion unit * World) : Prop :=
  match r with
  | (Normal _, w') => exists c, job id w' = Some c /\ phase id j n c
  | (Throw _, w') => exists m c, (m < n)%nat /\ job id w' = Some c /\ phase id j m c
  end.

(** The world after the handler of the outer [try] of the runner has
    logged the error [e]. *)
Definition logged (e : JsError) (w : World) : World :=
  with_console (console w ++ [ConsoleError "Processing error:" (Some e)]) w.

(** What the handler of the outer [try] makes of an error [e] thrown in
    the world [thrown], [result] being how the run ends.  The handler logs
    the error and writes [{status: "failed", progress: 0}] once.  When the
    storage accepts that write, the run ends normally; the record of the
    job, if there is one, then has status failed and progress 0 and is
    otherwise as it was.  When the storage rejects that write too, the run
    ends with that error and the record is as it was. *)
Definition handled (rejects : Partial.t -> bool) (id : string) (e : JsError)
    (thrown : World) (result : Completion unit * World) : Prop :=
  (rejects failedUpdate = false ->
   match job id thrown with
   | Some before =>
       result =
         (Normal tt,
          with_store (JsMap.set id (spread before failedUpdate) (store (logged e thrown)))
            (logged e thrown)) /\
       exists after,
         job id (snd result) = Some after /\
         Conversion.status after = failed /\
         Conversion.progress after = 0 /\
         (forall f, f <> F_status -> f <> F_progress ->
            field_of f after = field_of f before)
   | None => result = (Normal tt, logged e thrown)
   end) /\
  (rejects failedUpdate = true ->
   result = (Throw (mkError "write rejected"), logged e thrown) /\
   job id (snd result) = job id thrown).

(** The requests among which the upload route finds its jobs: outside of
    them it makes none.  (A file of exactly the limit is counted in,
    though the middleware refuses it.) *)
Definition acceptable (req : UploadRequest) : Prop :=
  exists file,
    audio req = Some file /\
    In (Incoming.mimetype file) allowedTypes /\
    Incoming.size file <= fileSize_limit /\
    is_Some (parseIntensity (or_else (intensity req) "medium")).

(** * Sample worlds

    A process that has just started, the upload of a 2 MB WAV file with
    intensity "heavy", and the world that upload leaves. *)

Definition sampleRandom (n : nat) : string :=
  match n with
  | O => "c0ffee"
  | S O => "0b5e55"
  | _ => "facade"
  end.

Definition emptyWorld : World :=
  {| store := MemStorage.new; disk := ∅; clock := 1000; console := [];
     random := sampleRandom; drawn := 0; started := [] |}.

Definition sampleRequest : UploadRequest :=
  {| audio := Some {| Incoming.originalname := "beat.wav";
                      Incoming.mimetype := "audio/wav";
                      Incoming.size := 2097152 |};
     intensity := Some "heavy" |}.

Definition sampleJob : Conversion.t :=
  {| Conversion.id := "0b5e55";
     Conversion.originalFilename := "beat.wav";
     Conversion.originalFilePath := "uploads/c0ffee";
     Conversion.convertedFilePath := None;
     Conversion.intensity := heavy;
     Conversion.status := pending;
     Conversion.progress := 0;
     Conversion.metadata := Some {| fileSize := 2097152; mimeType := "audio/wav" |};
     Conversion.createdAt := 1000;
     Conversion.completedAt := None |}.

Definition uploadedWorld : World :=
  snd (postUpload Singleton.storage sampleRequest emptyWorld).

(** Nothing else happens during the delays. *)
Definition idle (step : nat) (w : World) : World := w.

(** During the delay of step 4 the uploaded file is deleted from outside. *)
Definition fileVanishes (step : nat) (w : World) : World :=
  if (step =? 4)%nat then with_disk (delete "uploads/c0ffee" (disk w)) w else w.

(** During every delay the runner of another job writes its record. *)
Definition otherRunner (step : nat) (w : World) : World :=
  snd (updateConversion Singleton.storage "facade" (processingUpdate 50) w).

(** The world after the upload, with a directory where the converted file
    is to go. *)
Definition blockedWorld : World :=
  with_disk (<["uploads/converted_0b5e55.mp3" := Directory]> (disk uploadedWorld))
    uploadedWorld.

(** A storage that rejects the write of progress 50. *)
Definition rejectsHalfway (updates : Partial.t) : bool :=
  bool_decide (Partial.progress updates = Some 50).

(** Two uploads that validation refuses: a text file, and an MP3 one byte
    over the limit. *)
Definition textRequest : UploadRequest :=
  {| audio := Some {| Incoming.originalname := "notes.mp3";
                      Incoming.mimetype := "text/plain";
                      Incoming.size := 120 |};
     intensity := None |}.

Definition oversizedRequest : UploadRequest :=
  {| audio := Some {| Incoming.originalname := "mix.mp3";
                      Incoming.mimetype := "audio/mpeg";
                      Incoming.size := 52428801 |};
     intensity := Some "soft" |}.

(** A storage that rejects every write, and reads that fail for every id. *)
Definition rejectsEverything (updates : Partial.t) : bool := true.
Definition readsFail (id : string) : bool := true.
Definition readsWork (id : string) : bool := false.

(** A second upload of the same file, after the first. *)
Definition twoJobsWorld : World :=
  snd (postUpload Singleton.storage sampleRequest uploadedWorld).

(** The sample 0.5. *)
Definition half : spec_float := S754_finite false 4503599627370496 (-53).

(** * Properties *)

(** ** The map *)

Section JsMapFacts.
Context {V : Type}.
Implicit Types (m : JsMap.t V) (k : string) (v : V).

Lemma get_set_eq m k v : JsMap.get k (JsMap.set k v m) = Some v.
Proof.
  induction m as [|[k' v'] rest IH]; simpl.
  - by rewrite String.eqb_refl.
  - destruct (String.eqb k k') eqn:E; simpl.
    + by rewrite String.eqb_refl.
    + by rewrite E.
Qed.

Lemma get_set_ne m k k' v :
  k' <> k -> JsMap.get k' (JsMap.set k v m) = JsMap.get k' m.
Proof.
  intros Hne. induction m as [|[k0 v0] rest IH]; simpl.
  - by apply String.eqb_neq in Hne as ->.
  - destruct (String.eqb k k0) eqn:E; simpl.
    + apply String.eqb_eq in E as <-.
      by apply String.eqb_neq in Hne as ->.
    + by rewrite IH.
Qed.

Lemma keys_set_present m k v :
  is_Some (JsMap.get k m) -> JsMap.keys (JsMap.set k v m) = JsMap.keys m.
Proof.
  induction m as [|[k0 v0] rest IH]; simpl; intros [x Hx].
  - discriminate.
  - destruct (String.eqb k k0) eqn:E; simpl.
    + by apply String.eqb_eq in E as ->.
    + f_equal. apply IH. eauto.
Qed.

Lemma keys_set_absent m k v :
  JsMap.get k m = None -> JsMap.keys (JsMap.set k v m) = (JsMap.keys m ++ [k])%list.
Proof.
  induction m as [|[k0 v0] rest IH]; simpl; intros Hx.
  - done.
  - destruct (String.eqb k k0) eqn:E; [discriminate|].
    simpl. f_equal. by apply IH.
Qed.

Lemma get_None_keys m k : JsMap.get k m = None <-> k ∉ JsMap.keys m.
Proof.
  induction m as [|[k0 v0] rest IH]; simpl.
  - split; [intros _; apply not_elem_of_nil|done].
  - rewrite not_elem_of_cons. destruct (String.eqb_spec k k0) as [->|Hne].
    + split; [discriminate|]. intros [Hk _]. by destruct Hk.
    + rewrite IH. split; [by split|by intros [_ ?]].
Qed.

(** A map never holds a key twice. *)
Lemma keys_set_NoDup m k v : NoDup (JsMap.keys m) -> NoDup (JsMap.keys (JsMap.set k v m)).
Proof.
  intros Hm. destruct (JsMap.get k m) as [x|] eqn:Hget.
  - rewrite keys_set_present by eauto. done.
  - rewrite keys_set_absent by done.
    apply NoDup_app. split; [done|]. split; [|apply NoDup_singleton].
    intros k' Hk' ->%list_elem_of_singleton. by apply get_None_keys in Hget.
Qed.

Lemma size_set_present m k v :
  is_Some (JsMap.get k m) -> JsMap.size (JsMap.set k v m) = JsMap.size m.
Proof.
  intros H. unfold JsMap.size.
  rewrite <- (length_map fst (JsMap.set k v m)), <- (length_map fst m).
  f_equal. by apply keys_set_present.
Qed.
End JsMapFacts.

(** ** The store *)

(** Every property of the merged record comes from the update where the
    update names it and from the existing record where it does not. *)
Lemma spread_field existing updates f :
  field_of f (spread existing updates) =
  match named f updates with Some v => v | None => field_of f existing end.
Proof.
  destruct updates; destruct f; simpl;
    match goal with |- context [spread_prop _ ?o] => by destruct o end.
Qed.

(** C6. For an id present in the store, [updateConversion] returns and
    stores the shallow merge of the existing record and the update: a field
    the update names takes the update's value, any other field keeps the
    value of the existing record; the records under the other ids are
    unchanged. *)
Theorem updateConversion_merges id updates this existing :
  JsMap.get id this = Some existing ->
  exists updated this',
    MemStorage.updateConversion id updates this = (Some updated, this') /\
    JsMap.get id this' = Some updated /\
    (forall f v, named f updates = Some v -> field_of f updated = v) /\
    (forall f, named f updates = None -> field_of f updated = field_of f existing) /\
    (forall id', id' <> id -> JsMap.get id' this' = JsMap.get id' this).
Proof.
  intros Hget. exists (spread existing updates), (JsMap.set id (spread existing updates) this).
  unfold MemStorage.updateConversion. rewrite Hget.
  split; [done|]. split; [apply get_set_eq|].
  split; [|split].
  - intros f v Hv. by rewrite spread_field, Hv.
  - intros f Hv. by rewrite spread_field, Hv.
  - intros id' Hne. by apply get_set_ne.
Qed.

(** C7. For an id that is not in the store, [updateConversion] returns the
    "not found" value and the store it leaves is the store it found: no
    record is created or changed.  (The function is total: nothing is
    thrown.) *)
Theorem updateConversion_unknown id updates this :
  JsMap.get id this = None ->
  MemStorage.updateConversion id updates this = (None, this).
Proof. intros Hget. unfold MemStorage.updateConversion. by rewrite Hget. Qed.

(** C10. [updateConversion] never changes the keys of the store, nor their
    order; and when the id is present the merged record is stored under
    that id, whatever [id] or [createdAt] the update carries, so that
    [getConversion] with the original id returns it. *)
Theorem updateConversion_keeps_keys id updates this :
  JsMap.keys (snd (MemStorage.updateConversion id updates this)) = JsMap.keys this /\
  forall existing,
    JsMap.get id this = Some existing ->
    fst (MemStorage.getConversion id (snd (MemStorage.updateConversion id updates this)))
    = Some (spread existing updates) /\
    Conversion.id (spread existing updates)
    = nullish (Partial.id updates) (Conversion.id existing) /\
    Conversion.createdAt (spread existing updates)
    = nullish (Partial.createdAt updates) (Conversion.createdAt existing).
Proof.
  unfold MemStorage.updateConversion, MemStorage.getConversion.
  destruct (JsMap.get id this) as [existing|] eqn:Hget; simpl.
  - split.
    + apply keys_set_present. rewrite Hget. eauto.
    + intros ? [= <-]. split; [apply get_set_eq|].
      by destruct (Partial.id updates), (Partial.createdAt updates).
  - split; [done|]. intros ? [=].
Qed.

(** ** The listing *)

Section SortFacts.
Context {A : Type} (compareFn : A -> A -> Z).

Lemma sort_insert_perm a l : Permutation (a :: l) (sort_insert compareFn a l).
Proof.
  induction l as [|b rest IH]; simpl; [done|].
  destruct (compareFn a b <=? 0); [done|].
  rewrite perm_swap. by apply perm_skip.
Qed.

Lemma Array_sort_perm l : Permutation l (Array_sort compareFn l).
Proof.
  induction l as [|a rest IH]; simpl; [done|].
  rewrite <- sort_insert_perm. by apply perm_skip.
Qed.
End SortFacts.

Lemma sort_insert_newest_first a l :
  StronglySorted newest_first l ->
  StronglySorted newest_first (sort_insert MemStorage.byCreatedAtDesc a l).
Proof.
  induction 1 as [|b rest Hsorted IH Hall]; simpl.
  - by repeat constructor.
  - unfold MemStorage.byCreatedAtDesc at 1.
    destruct (Z.leb_spec (Conversion.createdAt b - Conversion.createdAt a) 0) as [Hle|Hgt].
    + constructor; [by constructor|].
      constructor; [unfold newest_first; lia|].
      eapply Forall_impl; [exact Hall|].
      unfold newest_first. intros c Hc. simpl in Hc. lia.
    + constructor; [done|].
      eapply Permutation_Forall; [apply sort_insert_perm|].
      constructor; [unfold newest_first; lia|done].
Qed.

Lemma Array_sort_newest_first l :
  StronglySorted newest_first (Array_sort MemStorage.byCreatedAtDesc l).
Proof.
  induction l as [|a rest IH]; simpl; [constructor|].
  by apply sort_insert_newest_first.
Qed.

Lemma sort_insert_created_at t a l :
  created_at t (sort_insert MemStorage.byCreatedAtDesc a l) = created_at t (a :: l).
Proof.
  induction l as [|b rest IH]; [done|].
  cbn [sort_insert]. unfold MemStorage.byCreatedAtDesc at 1.
  destruct (Z.leb_spec (Conversion.createdAt b - Conversion.createdAt a) 0) as [Hle|Hgt];
    [done|].
  unfold created_at in *. cbn [List.filter] in *. rewrite IH.
  destruct (Z.eqb_spec (Conversion.createdAt a) t), (Z.eqb_spec (Conversion.createdAt b) t);
    try done; lia.
Qed.

Lemma Array_sort_created_at t l :
  created_at t (Array_sort MemStorage.byCreatedAtDesc l) = created_at t l.
Proof.
  induction l as [|a rest IH]; [done|].
  cbn [Array_sort fold_right]. rewrite sort_insert_created_at.
  unfold created_at in *. cbn [List.filter]. fold (Array_sort MemStorage.byCreatedAtDesc rest).
  by rewrite IH.
Qed.

(** A list that is newest first is determined by the records it has for
    each instant and their order: whatever stable algorithm the engine
    sorts with, its result is the one of [Array_sort]. *)
Lemma newest_first_unique l1 l2 :
  StronglySorted newest_first l1 ->
  StronglySorted newest_first l2 ->
  (forall t, created_at t l1 = created_at t l2) ->
  l1 = l2.
Proof.
  assert (Hhead : forall a r, StronglySorted newest_first (a :: r) ->
            created_at (Conversion.createdAt a) (a :: r)
            = a :: created_at (Conversion.createdAt a) r).
  { intros a r _. unfold created_at. simpl. by rewrite Z.eqb_refl. }
  assert (Hin : forall t l c, In c (created_at t l) -> In c l /\ Conversion.createdAt c = t).
  { intros t l c Hc. unfold created_at in Hc. apply filter_In in Hc as [? ?%Z.eqb_eq]. done. }
  assert (Hempty : forall l, (forall t, created_at t l = []) -> l = []).
  { intros [|a r] Hl; [done|]. specialize (Hl (Conversion.createdAt a)).
    unfold created_at in Hl. simpl in Hl. by rewrite Z.eqb_refl in Hl. }
  intros H1. revert l2. induction H1 as [|a r1 Hr1 IH Ha]; intros l2 H2 Hsame.
  - symmetry. apply Hempty. intros t. by rewrite <- Hsame.
  - destruct H2 as [|b r2 Hr2 Hb].
    { exfalso. specialize (Hsame (Conversion.createdAt a)).
      rewrite Hhead in Hsame by (by constructor). discriminate. }
    assert (Hab : Conversion.createdAt a = Conversion.createdAt b).
    { apply Z.le_antisymm.
      - pose proof (Hsame (Conversion.createdAt a)) as Hs.
        rewrite Hhead in Hs by (by constructor).
        assert (Hina : In a (created_at (Conversion.createdAt a) (b :: r2)))
          by (rewrite <- Hs; by left).
        apply Hin in Hina as [[->|Hina] _]; [done|].
        rewrite Forall_forall in Hb. apply Hb. by apply list_elem_of_In.
      - pose proof (Hsame (Conversion.createdAt b)) as Hs.
        rewrite (Hhead b r2) in Hs by (by constructor).
        assert (Hinb : In b (created_at (Conversion.createdAt b) (a :: r1)))
          by (rewrite Hs; by left).
        apply Hin in Hinb as [[->|Hinb] _]; [done|].
        rewrite Forall_forall in Ha. apply Ha. by apply list_elem_of_In. }
    pose proof (Hsame (Conversion.createdAt a)) as Hs.
    rewrite Hhead in Hs by (by constructor).
    rewrite Hab, (Hhead b r2) in Hs by (by constructor).
    injection Hs as Heq Htail. subst b.
    f_equal. apply IH; [done|]. intros t.
    destruct (Z.eq_dec (Conversion.createdAt a) t) as [<-|Hne]; [done|].
    specialize (Hsame t). unfold created_at in *. simpl in Hsame.
    apply Z.eqb_neq in Hne. by rewrite Hne in Hsame.
Qed.

(** C8. [getAllConversions] returns all the records of the store (a
    permutation of the map's values), ordered by [createdAt] descending;
    the records created at one instant keep the order in which the map
    iterates over them, the insertion order; the store is left as it was,
    and a second call on the store the first call left returns the same
    list. *)
Theorem getAllConversions_newest_first this :
  let (listing, this') := MemStorage.getAllConversions this in
  Permutation (JsMap.values this) listing /\
  StronglySorted newest_first listing /\
  (forall t, created_at t listing = created_at t (JsMap.values this)) /\
  this' = this /\
  MemStorage.getAllConversions this' = (listing, this').
Proof.
  unfold MemStorage.getAllConversions.
  split; [apply Array_sort_perm|].
  split; [apply Array_sort_newest_first|].
  split; [intros t; apply Array_sort_created_at|].
  done.
Qed.

(** ** The runner *)

Lemma progressOf_tenfold step :
  (step <= 10)%nat -> progressOf step = 10 * Z.of_nat step.
Proof.
  intros H.
  do 11 (destruct step as [|step]; [vm_compute; reflexivity|]).
  lia.
Qed.

Lemma forEach_app {A} (xs ys : list A) body w :
  forEach (xs ++ ys) body w =
  match forEach xs body w with
  | (Normal _, w') => forEach ys body w'
  | (Throw e, w') => (Throw e, w')
  end.
Proof.
  revert w. induction xs as [|x xs IH]; intros w; simpl; [done|].
  unfold bind. destruct (body x w) as [[[]|e] w']; [apply IH|done].
Qed.

Lemma iterations_S storage meanwhile id conv n w :
  iterations storage meanwhile id conv (S n) w =
  match iterations storage meanwhile id conv n w with
  | (Normal _, w') => loopBody storage meanwhile id conv (S n) w'
  | (Throw e, w') => (Throw e, w')
  end.
Proof.
  unfold iterations. rewrite seq_S, forEach_app.
  destruct (forEach (seq 1 n) _ w) as [[[]|e] w']; [|done].
  simpl. unfold bind. by destruct (loopBody _ _ _ _ _ w') as [[[]|e] w''].
Qed.

(** The copy of the last step never throws and touches only the disk and
    the console. *)
Lemma copyOriginal_spec conv outputPath w :
  exists d c,
    copyOriginal conv outputPath w
    = (Normal tt, with_console c (with_disk d w)).
Proof.
  unfold copyOriginal, try_catch, bind, fs_existsSync, fs_copyFileSync.
  destruct (disk w !! Conversion.originalFilePath conv) as [[n|]|] eqn:Hsrc; simpl;
    rewrite ?Hsrc.
  - destruct (disk w !! outputPath) as [[m|]|] eqn:Hdst; simpl.
    + eexists _, _. reflexivity.
    + exists (disk w). eexists. reflexivity.
    + eexists _, _. reflexivity.
  - exists (disk w). eexists. reflexivity.
  - exists (disk w). eexists. reflexivity.
Qed.

Lemma rejecting_update rejects id updates w before :
  job id w = Some before ->
  updateConversion (rejectingStorage rejects) id updates w =
  if rejects updates then (Throw (mkError "write rejected"), w)
  else (Normal (Some (spread before updates)),
        with_store (JsMap.set id (spread before updates) (store w)) w).
Proof.
  unfold job. intros Hjob. simpl.
  destruct (rejects updates); [done|].
  unfold on_store, MemStorage.updateConversion. by rewrite Hjob.
Qed.

Lemma singleton_is_rejecting_nothing :
  Singleton.storage = rejectingStorage (fun _ => false).
Proof. reflexivity. Qed.

Lemma job_resumed meanwhile id step w :
  leaves id meanwhile -> job id (resumed meanwhile step w) = job id w.
Proof. intros Hleaves. unfold resumed. by rewrite Hleaves. Qed.

(** One iteration of the loop, started in a world where the job has the
    record [before]: the write of the step is made in a world [w1] in
    which the record is still [before]; a rejected write throws and leaves
    [w1], an accepted one stores the merge. *)
Lemma loopBody_step rejects meanwhile id conv step w before :
  leaves id meanwhile ->
  job id w = Some before ->
  exists w1 now,
    job id w1 = Some before /\
    loopBody (rejectingStorage rejects) meanwhile id conv step w =
    if rejects (stepUpdate id step now)
    then (Throw (mkError "write rejected"), w1)
    else (Normal tt,
          with_store (JsMap.set id (spread before (stepUpdate id step now)) (store w1)) w1).
Proof.
  intros Hleaves Hjob.
  assert (Hres : job id (resumed meanwhile step w) = Some before)
    by (by rewrite job_resumed).
  unfold loopBody, stepUpdate, bind, sleep. fold (resumed meanwhile step w).
  destruct (step =? totalSteps)%nat.
  - destruct (copyOriginal_spec conv (outputPathOf id) (resumed meanwhile step w))
      as (d & c & ->).
    set (w1 := with_console c (with_disk d (resumed meanwhile step w))).
    exists w1, (clock w1). split; [exact Hres|].
    unfold new_Date.
    rewrite (rejecting_update rejects id _ w1 before Hres).
    by destruct (rejects _).
  - exists (resumed meanwhile step w), 0. split; [exact Hres|].
    rewrite (rejecting_update rejects id _ _ before Hres).
    by destruct (rejects _).
Qed.

Lemma with_store_same w : with_store (store w) w = w.
Proof. by destruct w. Qed.

(** With the job in the store at the start, the run is the ten iterations
    under the handler of the outer [try]. *)
Lemma processAudioFile_unfold rejects meanwhile id w conv :
  job id w = Some conv ->
  processAudioFile (rejectingStorage rejects) meanwhile id w =
  match iterations (rejectingStorage rejects) meanwhile id conv totalSteps w with
  | (Normal _, w') => (Normal tt, w')
  | (Throw e, w') =>
      let w'' := with_console (console w' ++ [ConsoleError "Processing error:" (Some e)]) w' in
      match updateConversion (rejectingStorage rejects) id failedUpdate w'' with
      | (Normal _, w3) => (Normal tt, w3)
      | (Throw e', w3) => (Throw e', w3)
      end
  end.
Proof.
  unfold job. intros Hjob.
  unfold processAudioFile, try_catch, bind at 1.
  cbn [getConversion rejectingStorage Singleton.storage].
  unfold on_store, MemStorage.getConversion. rewrite Hjob, with_store_same.
  destruct (iterations _ _ _ _ _ w) as [[[]|e] w']; [done|].
  unfold bind, console_error.
  by destruct (updateConversion _ _ _ _) as [[?|?] ?].
Qed.

Lemma iterations_throw_mono storage meanwhile id conv k n w e w' :
  (k <= n)%nat ->
  iterations storage meanwhile id conv k w = (Throw e, w') ->
  iterations storage meanwhile id conv n w = (Throw e, w').
Proof.
  intros Hkn Hk. induction Hkn as [|n Hkn IH]; [done|].
  by rewrite iterations_S, IH.
Qed.

Lemma phase_next id j n a now :
  (n < totalSteps)%nat ->
  phase id j n a ->
  phase id j (S n) (spread a (stepUpdate id (S n) now)).
Proof.
  intros Hn Hphase. unfold stepUpdate.
  destruct Hphase as [|n Hrange|now'].
  - change (1 =? totalSteps)%nat with false. cbv iota.
    apply phase_processing. unfold totalSteps. lia.
  - destruct (Nat.eqb_spec (S n) totalSteps) as [Heq|Hne].
    + rewrite Heq.
      replace (spread (spread j _) _)
        with (spread j (completedUpdate (progressOf totalSteps) (outputPathOf id) now))
        by (by destruct j).
      apply phase_completed.
    + replace (spread (spread j _) _)
        with (spread j (processingUpdate (progressOf (S n))))
        by (by destruct j).
      apply phase_processing. lia.
  - lia.
Qed.

(** After [n] iterations the record of the job is the one of phase [n],
    or the one of the phase in which a write was rejected. *)
Lemma iterations_reached rejects meanwhile id j w n :
  leaves id meanwhile ->
  job id w = Some j ->
  (n <= totalSteps)%nat ->
  reached id j n (iterations (rejectingStorage rejects) meanwhile id j n w).
Proof.
  intros Hleaves Hjob. induction n as [|n IH]; intros Hn.
  - simpl. exists j. split; [done|constructor].
  - rewrite iterations_S.
    destruct (iterations _ _ _ _ n w) as [[[]|e] w'] eqn:Hrun; simpl in IH.
    + destruct IH as (c & Hc & Hphase); [lia|].
      destruct (loopBody_step rejects meanwhile id j (S n) w' c Hleaves Hc)
        as (w1 & now & Hw1 & ->).
      destruct (rejects _); simpl.
      * exists n, c. split; [lia|done].
      * eexists. split; [apply get_set_eq|].
        apply phase_next; [lia|done].
    + destruct IH as (m & c & Hm & Hc & Hphase); [lia|].
      exists m, c. split; [lia|done].
Qed.

Lemma lifecycle_refl a : lifecycle_step a a.
Proof. unfold lifecycle_step. split; [done|]. split; [done|]. left. lia. Qed.

Lemma moves_refl id s s' c :
  job id s = Some c -> job id s' = Some c -> moves id s s'.
Proof. intros Hs Hs'. exists c, c. split; [done|]. split; [done|]. apply lifecycle_refl. Qed.

(** Before the last iteration the record is pending or processing, has no
    converted file and stands at ten times the number of iterations. *)
Lemma phase_running id j n c :
  just_created j -> (n < totalSteps)%nat -> phase id j n c ->
  (Conversion.status c = pending \/ Conversion.status c = processing) /\
  Conversion.convertedFilePath c = None /\
  Conversion.progress c = 10 * Z.of_nat n.
Proof.
  intros (Hstatus & Hprogress & Hpath) Hn Hphase.
  destruct Hphase as [|n Hrange|now].
  - split; [by left|]. split; [done|]. rewrite Hprogress. lia.
  - split; [by right|]. split; [exact Hpath|].
    simpl. apply progressOf_tenfold. unfold totalSteps in *. lia.
  - lia.
Qed.

Lemma phase_done id j c :
  phase id j totalSteps c ->
  Conversion.status c = completed /\ Conversion.progress c = 100 /\
  Conversion.convertedFilePath c = Some (outputPathOf id) /\
  Conversion.completedAt c <> None.
Proof.
  intros Hphase. remember totalSteps as n eqn:Hn.
  destruct Hphase as [|n Hrange|now].
  - discriminate.
  - lia.
  - repeat split; done.
Qed.

Lemma step_lifecycle id j n c now :
  just_created j -> (n < totalSteps)%nat -> phase id j n c ->
  lifecycle_step c (spread c (stepUpdate id (S n) now)).
Proof.
  intros Hj Hn Hphase.
  destruct (phase_running id j n c Hj Hn Hphase) as (Hstatus & _ & Hprogress).
  assert (Hnext : progressOf (S n) = 10 * Z.of_nat (S n))
    by (apply progressOf_tenfold; unfold totalSteps in *; lia).
  unfold lifecycle_step, terminal, stepUpdate.
  split; [intros [H|H]; destruct Hstatus; congruence|].
  destruct (S n =? totalSteps)%nat; simpl; (split; [done|left; lia]).
Qed.

Lemma failure_lifecycle id j n c :
  just_created j -> (n < totalSteps)%nat -> phase id j n c ->
  lifecycle_step c (spread c failedUpdate).
Proof.
  intros Hj Hn Hphase.
  destruct (phase_running id j n c Hj Hn Hphase) as (Hstatus & _ & _).
  unfold lifecycle_step, terminal.
  split; [intros [H|H]; destruct Hstatus; congruence|].
  split; [done|]. by right.
Qed.

Lemma iterations_moves rejects meanwhile id j w n :
  just_created j ->
  leaves id meanwhile ->
  job id w = Some j ->
  (n < totalSteps)%nat ->
  moves id (snd (iterations (rejectingStorage rejects) meanwhile id j n w))
           (snd (iterations (rejectingStorage rejects) meanwhile id j (S n) w)).
Proof.
  intros Hj Hleaves Hjob Hn.
  pose proof (iterations_reached rejects meanwhile id j w n Hleaves Hjob) as Hreached.
  rewrite iterations_S.
  destruct (iterations _ _ _ _ n w) as [[[]|e] w'] eqn:Hrun; simpl in Hreached.
  - destruct Hreached as (c & Hc & Hphase); [lia|].
    destruct (loopBody_step rejects meanwhile id j (S n) w' c Hleaves Hc)
      as (w1 & now & Hw1 & ->).
    destruct (rejects _); simpl.
    + by apply (moves_refl _ _ _ c).
    + exists c, (spread c (stepUpdate id (S n) now)).
      split; [done|]. split; [apply get_set_eq|].
      by apply (step_lifecycle id j).
  - destruct Hreached as (m & c & Hm & Hc & Hphase); [lia|].
    by apply (moves_refl _ _ _ c).
Qed.

Lemma final_moves rejects meanwhile id j w :
  just_created j ->
  leaves id meanwhile ->
  job id w = Some j ->
  moves id (snd (iterations (rejectingStorage rejects) meanwhile id j totalSteps w))
           (snd (processAudioFile (rejectingStorage rejects) meanwhile id w)).
Proof.
  intros Hj Hleaves Hjob.
  pose proof (iterations_reached rejects meanwhile id j w totalSteps Hleaves Hjob)
    as Hreached.
  rewrite (processAudioFile_unfold rejects meanwhile id w j Hjob).
  destruct (iterations _ _ _ _ totalSteps w) as [[[]|e] w'] eqn:Hrun; simpl in Hreached.
  - destruct Hreached as (c & Hc & Hphase); [lia|].
    by apply (moves_refl _ _ _ c).
  - destruct Hreached as (m & c & Hm & Hc & Hphase); [lia|].
    cbv zeta.
    set (w'' := with_console _ w').
    assert (Hc'' : job id w'' = Some c) by exact Hc.
    rewrite (rejecting_update rejects id failedUpdate w'' c Hc'').
    destruct (rejects failedUpdate); simpl.
    + by apply (moves_refl _ _ _ c).
    + exists c, (spread c failedUpdate).
      split; [done|]. split; [apply get_set_eq|].
      by apply (failure_lifecycle id j m).
Qed.

(** ** The upload route *)

(** A request answered with 200 and the record [j] has created [j]: it is
    in the store under its id, pending, at progress 0, with no converted
    file and no completion date, and one run of the runner was started for
    it. *)
Lemma postUpload_created req w j :
  fst (postUpload Singleton.storage req w)
  = Normal {| statusCode := 200; json := JConversion j |} ->
  let w' := snd (postUpload Singleton.storage req w) in
  job (Conversion.id j) w' = Some j /\
  just_created j /\
  Conversion.completedAt j = None /\
  started w' = (started w ++ [Conversion.id j])%list.
Proof.
  unfold postUpload, upload_single.
  destruct (audio req) as [file|]; [|discriminate].
  destruct (fileFilter file) as [[|]|error]; [|discriminate|discriminate].
  unfold bind, throw.
  destruct (fileSize_limit <=? Incoming.size file); [discriminate|].
  unfold randomUUID, fs_write, ret, uploadHandler, try_catch.
  cbn [MulterFile.originalname MulterFile.path MulterFile.size MulterFile.mimetype].
  destruct (safeParse _) as [data|errors] eqn:Hparse; [|discriminate].
  unfold safeParse in Hparse.
  destruct (parseIntensity _) as [i|]; [|discriminate].
  injection Hparse as <-.
  cbn. intros [= <-]. cbn.
  split; [apply get_set_eq|]. done.
Qed.

(** ** Runs on the in-memory store *)

(** On the singleton every write is accepted: each iteration ends
    normally and merges the update of its step into the record it finds. *)
Lemma singleton_step meanwhile id conv w c n :
  leaves id meanwhile ->
  job id w = Some c ->
  exists before now,
    job id (snd (iterations Singleton.storage meanwhile id conv n w)) = Some before /\
    fst (iterations Singleton.storage meanwhile id conv n w) = Normal tt /\
    fst (iterations Singleton.storage meanwhile id conv (S n) w) = Normal tt /\
    job id (snd (iterations Singleton.storage meanwhile id conv (S n) w))
    = Some (spread before (stepUpdate id (S n) now)).
Proof.
  intros Hleaves Hjob.
  assert (Hn : exists w' c', iterations Singleton.storage meanwhile id conv n w
                             = (Normal tt, w') /\ job id w' = Some c').
  { induction n as [|n (w' & c' & Hrun & Hc')].
    - by exists w, c.
    - rewrite iterations_S, Hrun.
      change Singleton.storage with (rejectingStorage (fun _ => false)).
      destruct (loopBody_step (fun _ => false) meanwhile id conv (S n) w' c' Hleaves Hc')
        as (w1 & now & Hw1 & ->).
      eexists _, _. split; [reflexivity|apply get_set_eq]. }
  destruct Hn as (w' & before & Hrun & Hbefore).
  rewrite iterations_S, Hrun.
  change Singleton.storage with (rejectingStorage (fun _ => false)).
  destruct (loopBody_step (fun _ => false) meanwhile id conv (S n) w' before Hleaves Hbefore)
    as (w1 & now & Hw1 & ->).
  exists before, now. simpl. split; [done|]. split; [done|]. split; [done|].
  apply get_set_eq.
Qed.

(** C1. A run whose job is in the store when it starts ends normally after
    exactly ten iterations.  After iteration N, for N from 1 to 9, the
    stored record has status processing and progress
    [Math.round((N / 10) * 100)], which is 10 N, and is otherwise the
    record of before the iteration (the merge of
    [{status: "processing", progress}] into it).  After iteration 10 the
    stored record has status completed, progress 100, [convertedFilePath]
    the path [uploads/converted_{id}.mp3] and [completedAt] the date of
    that instant, and is otherwise the record of before. *)
Theorem processAudioFile_full_run meanwhile id w conv :
  job id w = Some conv ->
  leaves id meanwhile ->
  let after n := snd (iterations Singleton.storage meanwhile id conv n w) in
  processAudioFile Singleton.storage meanwhile id w = (Normal tt, after totalSteps) /\
  totalSteps = 10%nat /\
  (forall N, (1 <= N < 10)%nat ->
     progressOf N = 10 * Z.of_nat N /\
     exists before updated,
       job id (after (N - 1)%nat) = Some before /\
       job id (after N) = Some updated /\
       updated = spread before (processingUpdate (progressOf N)) /\
       Conversion.status updated = processing /\
       Conversion.progress updated = 10 * Z.of_nat N /\
       (forall f, f <> F_status -> f <> F_progress ->
          field_of f updated = field_of f before)) /\
  (exists before now done,
     job id (after 9%nat) = Some before /\
     done = spread before (completedUpdate 100 (outputPathOf id) now) /\
     job id (after 10%nat) = Some done /\
     Conversion.status done = completed /\
     Conversion.progress done = 100 /\
     Conversion.convertedFilePath done = Some ("uploads/converted_" ++ id ++ ".mp3") /\
     Conversion.completedAt done = Some now /\
     Conversion.completedAt done <> None /\
     (forall f, f <> F_status -> f <> F_progress ->
        f <> F_convertedFilePath -> f <> F_completedAt ->
        field_of f done = field_of f before)).
Proof.
  intros Hjob Hleaves after.
  split; [|split; [done|split]].
  - change Singleton.storage with (rejectingStorage (fun _ => false)).
    rewrite (processAudioFile_unfold _ meanwhile id w conv Hjob).
    destruct (singleton_step meanwhile id conv w conv 9 Hleaves Hjob)
      as (before & now & _ & _ & Hfst & _).
    change Singleton.storage with (rejectingStorage (fun _ => false)) in Hfst.
    subst after. cbv beta.
    change Singleton.storage with (rejectingStorage (fun _ => false)).
    change totalSteps with 10%nat.
    destruct (iterations _ _ _ _ 10 w) as [[[]|e] w']; [done|discriminate].
  - intros N HN.
    assert (Hprogress : progressOf N = 10 * Z.of_nat N)
      by (apply progressOf_tenfold; lia).
    split; [exact Hprogress|].
    destruct N as [|n]; [lia|].
    destruct (singleton_step meanwhile id conv w conv n Hleaves Hjob)
      as (before & now & Hbefore & _ & _ & Hafter).
    exists before, (spread before (processingUpdate (progressOf (S n)))).
    replace (S n - 1)%nat with n by lia.
    split; [exact Hbefore|]. split.
    { unfold stepUpdate in Hafter.
      replace (S n =? totalSteps)%nat with false in Hafter; [exact Hafter|].
      symmetry. apply Nat.eqb_neq. unfold totalSteps. lia. }
    split; [done|]. split; [done|]. split; [exact Hprogress|].
    intros f Hstatus Hprog. rewrite spread_field. by destruct f.
  - destruct (singleton_step meanwhile id conv w conv 9 Hleaves Hjob)
      as (before & now & Hbefore & _ & _ & Hafter).
    exists before, now, (spread before (completedUpdate 100 (outputPathOf id) now)).
    split; [exact Hbefore|]. split; [done|]. split; [exact Hafter|].
    do 5 (split; [done|]).
    intros f Hstatus Hprog Hpath Hdate. rewrite spread_field. by destruct f.
Qed.

(** The last iteration when the original file is not there: one line on
    the error console, then the completing write. *)
Lemma loopBody_last_absent meanwhile id conv w before :
  leaves id meanwhile ->
  job id w = Some before ->
  let w' := resumed meanwhile totalSteps w in
  disk w' !! Conversion.originalFilePath conv = None ->
  loopBody Singleton.storage meanwhile id conv totalSteps w =
  (Normal tt,
   with_store
     (JsMap.set id (spread before (completedUpdate 100 (outputPathOf id) (clock w')))
        (store w'))
     (with_console
        (console w' ++
         [ConsoleError ("Original file not found: " ++ Conversion.originalFilePath conv)
            None]) w')).
Proof.
  intros Hleaves Hjob w' Habsent.
  assert (Hres : JsMap.get id (store w') = Some before)
    by (by unfold w'; rewrite <- Hjob, <- (job_resumed meanwhile id totalSteps w Hleaves)).
  unfold loopBody, bind, sleep. fold (resumed meanwhile totalSteps w). fold w'.
  change (totalSteps =? totalSteps)%nat with true. cbv iota.
  unfold copyOriginal, try_catch, bind, fs_existsSync.
  rewrite bool_decide_eq_false_2 by (rewrite Habsent; intros [? ?]; discriminate).
  unfold console_error, new_Date.
  cbn [updateConversion Singleton.storage].
  unfold on_store, MemStorage.updateConversion.
  cbn [store with_console clock]. rewrite Hres.
  reflexivity.
Qed.


(** ** The lifecycle of a job *)

Lemma phase_path id j n c :
  just_created j -> phase id j n c -> path_iff_completed c.
Proof.
  intros Hj Hphase. unfold path_iff_completed.
  destruct (decide (n < totalSteps)%nat) as [Hn|Hn].
  - destruct (phase_running id j n c Hj Hn Hphase) as (Hstatus & -> & _).
    split; [done|]. destruct Hstatus; congruence.
  - assert (n = totalSteps) as ->.
    { destruct Hphase; unfold totalSteps in *; lia. }
    destruct (phase_done id j c Hphase) as (-> & _ & -> & _). done.
Qed.

Lemma failed_path id j n c :
  just_created j -> (n < totalSteps)%nat -> phase id j n c ->
  path_iff_completed (spread c failedUpdate).
Proof.
  intros Hj Hn Hphase. unfold path_iff_completed.
  destruct (phase_running id j n c Hj Hn Hphase) as (_ & Hpath & _).
  simpl. rewrite Hpath. done.
Qed.

(** C3. Take a job as the upload route creates it and any run of its
    runner, with the writes the storage accepts and rejects chosen freely
    ([rejects]; none is rejected by the in-memory store).  In the world
    after each iteration and in the world the run ends in, the record of
    the job has [convertedFilePath] set if and only if its status is
    completed. *)
Theorem convertedFilePath_iff_completed rejects meanwhile req w j :
  fst (postUpload Singleton.storage req w)
  = Normal {| statusCode := 200; json := JConversion j |} ->
  leaves (Conversion.id j) meanwhile ->
  let id := Conversion.id j in
  let created := snd (postUpload Singleton.storage req w) in
  (forall n, (n <= totalSteps)%nat ->
     exists c,
       job id (snd (iterations (rejectingStorage rejects) meanwhile id j n created)) = Some c /\
       path_iff_completed c) /\
  (exists c,
     job id (snd (processAudioFile (rejectingStorage rejects) meanwhile id created)) = Some c /\
     path_iff_completed c).
Proof.
  intros Hcreated Hleaves id created.
  destruct (postUpload_created req w j Hcreated) as (Hjob & Hj & _).
  fold id created in Hjob.
  assert (Hsteps : forall n, (n <= totalSteps)%nat ->
    exists c,
      job id (snd (iterations (rejectingStorage rejects) meanwhile id j n created)) = Some c /\
      path_iff_completed c).
  { intros n Hn.
    pose proof (iterations_reached rejects meanwhile id j created n Hleaves Hjob Hn)
      as Hreached.
    destruct (iterations _ _ _ _ n created) as [[[]|e] w']; simpl in *.
    - destruct Hreached as (c & Hc & Hphase). exists c. split; [done|].
      by apply (phase_path id j n).
    - destruct Hreached as (m & c & Hm & Hc & Hphase). exists c. split; [done|].
      by apply (phase_path id j m). }
  split; [exact Hsteps|].
  pose proof (iterations_reached rejects meanwhile id j created totalSteps Hleaves Hjob
                ltac:(lia)) as Hreached.
  rewrite (processAudioFile_unfold rejects meanwhile id created j Hjob).
  destruct (iterations _ _ _ _ totalSteps created) as [[[]|e] w']; simpl in Hreached.
  - destruct Hreached as (c & Hc & Hphase). exists c. split; [done|].
    by apply (phase_path id j totalSteps).
  - destruct Hreached as (m & c & Hm & Hc & Hphase).
    cbv zeta. set (w'' := with_console _ w').
    assert (Hc'' : job id w'' = Some c) by exact Hc.
    rewrite (rejecting_update rejects id failedUpdate w'' c Hc'').
    destruct (rejects failedUpdate); simpl.
    + exists c. split; [done|]. by apply (phase_path id j m).
    + eexists. split; [apply get_set_eq|]. by apply (failed_path id j m).
Qed.

(** C5. Take a job as the upload route creates it and any run of its
    runner, with the writes the storage accepts and rejects chosen freely.
    The record starts pending at progress 0.  From the world after one
    iteration to the world after the next, and from the last of these to
    the world the run ends in, the record makes a move of the lifecycle or
    none: a completed or failed record does not change any more, a record
    that has left pending does not return to it, and progress does not
    decrease, except that the move to failed sets it to 0. *)
Theorem job_lifecycle rejects meanwhile req w j :
  fst (postUpload Singleton.storage req w)
  = Normal {| statusCode := 200; json := JConversion j |} ->
  leaves (Conversion.id j) meanwhile ->
  let id := Conversion.id j in
  let created := snd (postUpload Singleton.storage req w) in
  let world n := snd (iterations (rejectingStorage rejects) meanwhile id j n created) in
  let final := snd (processAudioFile (rejectingStorage rejects) meanwhile id created) in
  (job id (world 0%nat) = Some j /\
   Conversion.progress j = 0 /\ Conversion.status j = pending) /\
  (forall n, (n < totalSteps)%nat -> moves id (world n) (world (S n))) /\
  moves id (world totalSteps) final.
Proof.
  intros Hcreated Hleaves id created world final.
  destruct (postUpload_created req w j Hcreated) as (Hjob & Hj & _).
  fold id created in Hjob.
  split; [|split].
  - destruct Hj as (Hstatus & Hprogress & _). done.
  - intros n Hn. by apply iterations_moves.
  - by apply final_moves.
Qed.

(** ** Runs in which something fails *)

(** As long as the writes are accepted the iterations end normally and
    the record stays in the store. *)
Lemma iterations_accepted rejects meanwhile id conv w c n :
  leaves id meanwhile ->
  job id w = Some c ->
  (forall m now, (1 <= m <= n)%nat -> rejects (stepUpdate id m now) = false) ->
  exists w' c',
    iterations (rejectingStorage rejects) meanwhile id conv n w = (Normal tt, w') /\
    job id w' = Some c'.
Proof.
  intros Hleaves Hjob. induction n as [|n IH]; intros Haccepted.
  - by exists w, c.
  - destruct IH as (w' & c' & Hrun & Hc'); [intros m now Hm; apply Haccepted; lia|].
    rewrite iterations_S, Hrun.
    destruct (loopBody_step rejects meanwhile id conv (S n) w' c' Hleaves Hc')
      as (w1 & now & Hw1 & ->).
    rewrite Haccepted by lia.
    eexists _, _. split; [reflexivity|apply get_set_eq].
Qed.

(** A job that is not in the store when the runner starts: the runner
    returns at once; nothing is written, logged or thrown. *)
Lemma processAudioFile_missing rejects meanwhile id w :
  job id w = None ->
  processAudioFile (rejectingStorage rejects) meanwhile id w = (Normal tt, w).
Proof.
  unfold job. intros Hjob.
  unfold processAudioFile, try_catch, bind.
  cbn [getConversion rejectingStorage Singleton.storage].
  unfold on_store, MemStorage.getConversion. by rewrite Hjob, with_store_same.
Qed.

(** The last iteration when the original file is there but the copy
    throws: the inner handler logs the error and the completing write is
    made all the same. *)
Lemma loopBody_last_copy_fails meanwhile id conv w before node e :
  leaves id meanwhile ->
  job id w = Some before ->
  let w' := resumed meanwhile totalSteps w in
  disk w' !! Conversion.originalFilePath conv = Some node ->
  fst (fs_copyFileSync (Conversion.originalFilePath conv) (outputPathOf id) w') = Throw e ->
  loopBody Singleton.storage meanwhile id conv totalSteps w =
  (Normal tt,
   with_store
     (JsMap.set id (spread before (completedUpdate 100 (outputPathOf id) (clock w')))
        (store w'))
     (with_console
        (console w' ++ [ConsoleError "Error creating converted file:" (Some e)]) w')).
Proof.
  intros Hleaves Hjob w' Hthere Hcopy.
  assert (Hres : JsMap.get id (store w') = Some before)
    by (by unfold w'; rewrite <- Hjob, <- (job_resumed meanwhile id totalSteps w Hleaves)).
  assert (Hcopy' :
    fs_copyFileSync (Conversion.originalFilePath conv) (outputPathOf id) w' = (Throw e, w')).
  { revert Hcopy. unfold fs_copyFileSync. rewrite Hthere.
    destruct node as [n|]; [|by intros [= ->]].
    destruct (disk w' !! outputPathOf id) as [[m|]|]; try discriminate.
    by intros [= ->]. }
  unfold loopBody, bind, sleep. fold (resumed meanwhile totalSteps w). fold w'.
  change (totalSteps =? totalSteps)%nat with true. cbv iota.
  unfold copyOriginal, try_catch, bind, fs_existsSync.
  rewrite bool_decide_eq_true_2 by (rewrite Hthere; eauto).
  rewrite Hcopy'.
  unfold console_error, new_Date.
  cbn [updateConversion Singleton.storage].
  unfold on_store, MemStorage.updateConversion.
  cbn [store with_console clock]. rewrite Hres.
  reflexivity.
Qed.

Lemma processAudioFile_last_step meanwhile id w conv :
  leaves id meanwhile ->
  job id w = Some conv ->
  let w9 := snd (iterations Singleton.storage meanwhile id conv 9 w) in
  (exists before, job id w9 = Some before) /\
  processAudioFile Singleton.storage meanwhile id w
  = loopBody Singleton.storage meanwhile id conv totalSteps w9 /\
  fst (processAudioFile Singleton.storage meanwhile id w) = Normal tt.
Proof.
  intros Hleaves Hjob w9.
  destruct (singleton_step meanwhile id conv w conv 9 Hleaves Hjob)
    as (before & now & Hbefore & Hfst9 & Hfst10 & _).
  fold w9 in Hbefore.
  split; [by exists before|].
  change Singleton.storage with (rejectingStorage (fun _ => false)) in *.
  rewrite (processAudioFile_unfold _ meanwhile id w conv Hjob).
  change totalSteps with 10%nat.
  destruct (iterations _ _ _ _ 10 w) as [[[]|e] w10] eqn:Hten; [|discriminate].
  rewrite iterations_S in Hten. subst w9.
  destruct (iterations _ _ _ _ 9 w) as [[[]|e] w0]; [|discriminate].
  cbn [snd]. by rewrite Hten.
Qed.

Example sample_upload :
  postUpload Singleton.storage sampleRequest emptyWorld
  = (Normal {| statusCode := 200; json := JConversion sampleJob |}, uploadedWorld)
  /\ job "0b5e55" uploadedWorld = Some sampleJob
  /\ disk uploadedWorld !! "uploads/c0ffee" = Some (RegularFile 2097152)
  /\ started uploadedWorld = ["0b5e55"].
Proof. repeat split; vm_compute; reflexivity. Qed.

Example sample_run :
  let final := snd (processAudioFile Singleton.storage idle "0b5e55" uploadedWorld) in
  job "0b5e55" final
  = Some {| Conversion.id := "0b5e55";
            Conversion.originalFilename := "beat.wav";
            Conversion.originalFilePath := "uploads/c0ffee";
            Conversion.convertedFilePath := Some "uploads/converted_0b5e55.mp3";
            Conversion.intensity := heavy;
            Conversion.status := completed;
            Conversion.progress := 100;
            Conversion.metadata := Some {| fileSize := 2097152; mimeType := "audio/wav" |};
            Conversion.createdAt := 1000;
            Conversion.completedAt := Some 21000 |}
  /\ disk final !! "uploads/converted_0b5e55.mp3" = Some (RegularFile 2097152)
  /\ console final = [ConsoleLog "Created converted file: uploads/converted_0b5e55.mp3"]
  /\ clock final = 21000.
Proof. repeat split; vm_compute; reflexivity. Qed.

Example sample_progress :
  map (fun n => Conversion.progress <$>
                job "0b5e55" (snd (iterations Singleton.storage idle "0b5e55" sampleJob n
                                     uploadedWorld)))
      (seq 0 11)
  = [Some 0; Some 10; Some 20; Some 30; Some 40; Some 50; Some 60; Some 70; Some 80;
     Some 90; Some 100].
Proof. vm_compute. reflexivity. Qed.

Example sample_rejected_run :
  let final :=
    snd (processAudioFile (rejectingStorage rejectsHalfway) idle "0b5e55" uploadedWorld) in
  (Conversion.status <$> job "0b5e55" final) = Some failed
  /\ (Conversion.progress <$> job "0b5e55" final) = Some 0
  /\ console final
     = [ConsoleError "Processing error:" (Some (mkError "write rejected"))]
  /\ clock final = 11000.
Proof. repeat split; vm_compute; reflexivity. Qed.

Lemma faulty_iterations rejectsRead rejects meanwhile id conv n w :
  iterations (faultyStorage rejectsRead rejects) meanwhile id conv n w
  = iterations (rejectingStorage rejects) meanwhile id conv n w.
Proof. reflexivity. Qed.

Lemma faulty_read_accepted rejectsRead rejects meanwhile id w :
  rejectsRead id = false ->
  processAudioFile (faultyStorage rejectsRead rejects) meanwhile id w
  = processAudioFile (rejectingStorage rejects) meanwhile id w.
Proof.
  intros Hread. unfold processAudioFile, try_catch, bind.
  cbn [getConversion faultyStorage rejectingStorage]. by rewrite Hread.
Qed.

(** The handler of the outer [try], run in the world [thrown]. *)
Lemma handler_handled rejects id e thrown :
  handled rejects id e thrown
    match updateConversion (rejectingStorage rejects) id failedUpdate (logged e thrown) with
    | (Normal _, w3) => (Normal tt, w3)
    | (Throw e', w3) => (Throw e', w3)
    end.
Proof.
  unfold handled. cbn [updateConversion rejectingStorage].
  split; intros Hfailed; rewrite Hfailed.
  - cbn [updateConversion Singleton.storage].
    unfold on_store, MemStorage.updateConversion.
    change (JsMap.get id (store (logged e thrown))) with (job id thrown).
    destruct (job id thrown) as [before|] eqn:Hjob.
    + split; [done|]. exists (spread before failedUpdate).
      split; [apply get_set_eq|]. split; [done|]. split; [done|].
      intros f Hstatus Hprogress. rewrite spread_field. by destruct f.
    + by rewrite with_store_same.
  - done.
Qed.

Lemma processAudioFile_read_rejected rejectsRead rejects meanwhile id w :
  rejectsRead id = true ->
  handled rejects id (mkError "read rejected") w
    (processAudioFile (faultyStorage rejectsRead rejects) meanwhile id w).
Proof.
  intros Hread.
  pose proof (handler_handled rejects id (mkError "read rejected") w) as Hhandled.
  unfold processAudioFile, try_catch, bind at 1.
  cbn [getConversion faultyStorage]. rewrite Hread. unfold throw.
  unfold bind, console_error. fold (logged (mkError "read rejected") w).
  cbn [updateConversion faultyStorage].
  by destruct (updateConversion (rejectingStorage rejects) id failedUpdate _)
    as [[?|?] ?].
Qed.

Lemma processAudioFile_write_rejected rejects meanwhile id w conv k :
  leaves id meanwhile ->
  job id w = Some conv ->
  (1 <= k <= totalSteps)%nat ->
  (forall m now, (1 <= m < k)%nat -> rejects (stepUpdate id m now) = false) ->
  (forall now, rejects (stepUpdate id k now) = true) ->
  let thrown := iterations (rejectingStorage rejects) meanwhile id conv k w in
  fst thrown = Throw (mkError "write rejected") /\
  is_Some (job id (snd thrown)) /\
  handled rejects id (mkError "write rejected") (snd thrown)
    (processAudioFile (rejectingStorage rejects) meanwhile id w).
Proof.
  intros Hleaves Hjob Hk Haccepted Hrejected.
  destruct k as [|k]; [lia|].
  destruct (iterations_accepted rejects meanwhile id conv w conv k Hleaves Hjob)
    as (w' & before & Hrun & Hbefore); [intros m now Hm; apply Haccepted; lia|].
  assert (Hthrown : exists w1,
    iterations (rejectingStorage rejects) meanwhile id conv (S k) w
    = (Throw (mkError "write rejected"), w1) /\ job id w1 = Some before).
  { rewrite iterations_S, Hrun.
    destruct (loopBody_step rejects meanwhile id conv (S k) w' before Hleaves Hbefore)
      as (w1 & now & Hw1 & ->).
    rewrite Hrejected. by exists w1. }
  destruct Hthrown as (w1 & Hthrown & Hw1).
  intros thrown. subst thrown. rewrite Hthrown. cbn [fst snd].
  split; [done|]. split; [by rewrite Hw1|].
  rewrite (processAudioFile_unfold rejects meanwhile id w conv Hjob).
  rewrite (iterations_throw_mono _ meanwhile id conv (S k) totalSteps w _ w1
             ltac:(lia) Hthrown).
  apply handler_handled.
Qed.

(** C2, as the code has it.  Take a run during whose delays the record of
    the job is left alone, on a storage whose reads and writes may fail.
    - A job that is missing from the store when the runner starts (the
      read succeeding) makes the runner return at once: nothing is
      updated, logged or thrown.
    - A storage call that throws, the read at the start or the write of
      some step, is the error that reaches the handler of the outer
      [try].  The handler logs it and writes
      [{status: "failed", progress: 0}] once, and the run ends there: no
      later step is run and nothing is retried.  When the storage accepts
      that write the run ends normally and the record of the job, if
      there is one, has status failed and progress 0 and is otherwise as
      it was; when the storage rejects that write too, the run ends with
      that error and the record is as it was.
    - An exception of the file copy in the last step is caught by the
      inner handler and logged, and the job is completed all the same,
      with status completed and progress 100.
    - On the in-memory store the run never ends in an error. *)
Theorem processAudioFile_handles_errors rejectsRead rejects meanwhile id w :
  leaves id meanwhile ->
  (rejectsRead id = false ->
   job id w = None ->
   processAudioFile (faultyStorage rejectsRead rejects) meanwhile id w = (Normal tt, w)) /\
  (rejectsRead id = true ->
   handled rejects id (mkError "read rejected") w
     (processAudioFile (faultyStorage rejectsRead rejects) meanwhile id w)) /\
  (forall conv k,
     rejectsRead id = false ->
     job id w = Some conv ->
     (1 <= k <= totalSteps)%nat ->
     (forall m now, (1 <= m < k)%nat -> rejects (stepUpdate id m now) = false) ->
     (forall now, rejects (stepUpdate id k now) = true) ->
     let thrown := iterations (faultyStorage rejectsRead rejects) meanwhile id conv k w in
     fst thrown = Throw (mkError "write rejected") /\
     is_Some (job id (snd thrown)) /\
     handled rejects id (mkError "write rejected") (snd thrown)
       (processAudioFile (faultyStorage rejectsRead rejects) meanwhile id w)) /\
  (forall conv node e,
     job id w = Some conv ->
     let w' :=
       resumed meanwhile totalSteps
         (snd (iterations Singleton.storage meanwhile id conv 9 w)) in
     let final := snd (processAudioFile Singleton.storage meanwhile id w) in
     disk w' !! Conversion.originalFilePath conv = Some node ->
     fst (fs_copyFileSync (Conversion.originalFilePath conv) (outputPathOf id) w')
     = Throw e ->
     exists before done,
       job id w' = Some before /\
       processAudioFile Singleton.storage meanwhile id w
       = (Normal tt,
          with_store
            (JsMap.set id
               (spread before (completedUpdate 100 (outputPathOf id) (clock w')))
               (store w'))
            (with_console
               (console w' ++ [ConsoleError "Error creating converted file:" (Some e)])
               w')) /\
       job id final = Some done /\
       Conversion.status done = completed /\
       Conversion.progress done = 100) /\
  fst (processAudioFile Singleton.storage meanwhile id w) = Normal tt.
Proof.
  intros Hleaves. split; [|split; [|split; [|split]]].
  - intros Hread Hjob. rewrite faulty_read_accepted by done.
    by apply processAudioFile_missing.
  - apply processAudioFile_read_rejected.
  - intros conv k Hread Hjob Hk Haccepted Hrejected.
    rewrite faulty_iterations, faulty_read_accepted by done.
    by apply processAudioFile_write_rejected.
  - intros conv node e Hjob w' final Hthere Hcopy.
    destruct (processAudioFile_last_step meanwhile id w conv Hleaves Hjob)
      as ((before & Hbefore) & Hrun & _).
    exists before, (spread before (completedUpdate 100 (outputPathOf id) (clock w'))).
    split; [by unfold w'; rewrite job_resumed|].
    subst final. rewrite Hrun.
    rewrite (loopBody_last_copy_fails meanwhile id conv _ before node e Hleaves Hbefore
               Hthere Hcopy).
    split; [done|]. split; [apply get_set_eq|]. done.
  - destruct (job id w) as [conv|] eqn:Hjob.
    + by destruct (processAudioFile_last_step meanwhile id w conv Hleaves Hjob)
        as (_ & _ & ->).
    + change Singleton.storage with (rejectingStorage (fun _ => false)).
      by rewrite processAudioFile_missing.
Qed.

Lemma idle_leaves id : leaves id idle.
Proof. intros step w. reflexivity. Qed.

Lemma processAudioFile_handles_errors_witness :
  leaves "0b5e55" idle /\
  processAudioFile (faultyStorage readsWork rejectsHalfway) idle "0b5e55" emptyWorld
  = (Normal tt, emptyWorld) /\
  (exists after,
     job "0b5e55"
       (snd (processAudioFile (faultyStorage readsFail rejectsHalfway) idle "0b5e55"
               uploadedWorld)) = Some after /\
     Conversion.status after = failed /\
     Conversion.progress after = 0) /\
  (exists after,
     job "0b5e55"
       (snd (processAudioFile (faultyStorage readsWork rejectsHalfway) idle "0b5e55"
               uploadedWorld)) = Some after /\
     Conversion.status after = failed /\
     Conversion.progress after = 0) /\
  (fst (processAudioFile (faultyStorage readsWork rejectsEverything) idle "0b5e55"
          uploadedWorld) = Throw (mkError "write rejected") /\
   job "0b5e55"
     (snd (processAudioFile (faultyStorage readsWork rejectsEverything) idle "0b5e55"
             uploadedWorld)) = Some sampleJob) /\
  (exists done,
     job "0b5e55" (snd (processAudioFile Singleton.storage idle "0b5e55" blockedWorld))
     = Some done /\
     Conversion.status done = completed /\
     Conversion.progress done = 100).
Proof.
  split; [apply idle_leaves|]. split; [|split; [|split; [|split]]].
  - apply (processAudioFile_handles_errors readsWork rejectsHalfway idle "0b5e55" emptyWorld
             (idle_leaves _)); reflexivity.
  - pose proof (proj1 (proj1 (proj2 (processAudioFile_handles_errors readsFail
                  rejectsHalfway idle "0b5e55" uploadedWorld (idle_leaves _))) eq_refl)
                  eq_refl) as Hhandled.
    change (job "0b5e55" uploadedWorld) with (Some sampleJob) in Hhandled.
    destruct Hhandled as (_ & after & Hafter & Hstatus & Hprogress & _).
    exists after. exact (conj Hafter (conj Hstatus Hprogress)).
  - destruct (proj1 (proj2 (proj2 (processAudioFile_handles_errors readsWork rejectsHalfway
                              idle "0b5e55" uploadedWorld (idle_leaves _)))) sampleJob 5%nat)
      as (_ & [before Hbefore] & Hhandled).
    + reflexivity.
    + vm_compute. reflexivity.
    + unfold totalSteps. lia.
    + intros m now Hm.
      assert (m = 1 \/ m = 2 \/ m = 3 \/ m = 4)%nat as [->|[->|[->| ->]]] by lia;
        vm_compute; reflexivity.
    + intros now. vm_compute. reflexivity.
    + pose proof (proj1 Hhandled eq_refl) as Haccepted.
      rewrite Hbefore in Haccepted.
      destruct Haccepted as (_ & after & Hafter & Hstatus & Hprogress & _).
      exists after. exact (conj Hafter (conj Hstatus Hprogress)).
  - destruct (proj1 (proj2 (proj2 (processAudioFile_handles_errors readsWork
                              rejectsEverything idle "0b5e55" uploadedWorld
                              (idle_leaves _)))) sampleJob 1%nat)
      as (_ & _ & Hhandled).
    + reflexivity.
    + vm_compute. reflexivity.
    + unfold totalSteps. lia.
    + intros m now Hm. lia.
    + intros now. reflexivity.
    + destruct (proj2 Hhandled eq_refl) as (Hrun & Hjob).
      split; [by rewrite Hrun|].
      rewrite Hjob. vm_compute. reflexivity.
  - destruct (proj1 (proj2 (proj2 (proj2 (processAudioFile_handles_errors readsWork
                                     rejectsHalfway idle "0b5e55" blockedWorld
                                     (idle_leaves _)))))
                sampleJob (RegularFile 2097152)
                (SystemError "EISDIR" "uploads/converted_0b5e55.mp3"))
      as (before & done & _ & _ & Hdone & Hstatus & Hprogress).
    + vm_compute. reflexivity.
    + vm_compute. reflexivity.
    + vm_compute. reflexivity.
    + exists done. exact (conj Hdone (conj Hstatus Hprogress)).
Defined.

(** C2, as the spec states it, fails on two of the errors it names.  With
    the job missing from the store at the start, the run returns and the
    store has no failed record (it is empty as before).  With a directory
    in the place of the output file, [copyFileSync] throws in the last
    step, and the job ends completed at progress 100, not failed at 0.
    And on a storage that rejects every write, the write of the first step
    throws, the write of the handler throws as well, and the job is left
    pending while the run ends with the error. *)
Lemma processAudioFile_error_without_failed :
  (job "0b5e55" emptyWorld = None /\
   processAudioFile Singleton.storage idle "0b5e55" emptyWorld = (Normal tt, emptyWorld) /\
   store emptyWorld = []) /\
  (let w' :=
     resumed idle totalSteps
       (snd (iterations Singleton.storage idle "0b5e55" sampleJob 9 blockedWorld)) in
   let final := snd (processAudioFile Singleton.storage idle "0b5e55" blockedWorld) in
   fst (fs_copyFileSync "uploads/c0ffee" "uploads/converted_0b5e55.mp3" w')
   = Throw (SystemError "EISDIR" "uploads/converted_0b5e55.mp3") /\
   (Conversion.status <$> job "0b5e55" final) = Some completed /\
   (Conversion.progress <$> job "0b5e55" final) = Some 100 /\
   console final
   = [ConsoleError "Error creating converted file:"
        (Some (SystemError "EISDIR" "uploads/converted_0b5e55.mp3"))]) /\
  (let run :=
     processAudioFile (rejectingStorage rejectsEverything) idle "0b5e55" uploadedWorld in
   fst run = Throw (mkError "write rejected") /\
   (Conversion.status <$> job "0b5e55" (snd run)) = Some pending).
Proof. repeat split; vm_compute; reflexivity. Qed.

(** ** Validation of the upload *)

Lemma includes_In xs x : includes xs x = true <-> In x xs.
Proof.
  unfold includes. rewrite existsb_exists. split.
  - intros (y & Hy & Heq). by apply String.eqb_eq in Heq as ->.
  - intros Hin. exists x. split; [done|apply String.eqb_refl].
Qed.

(** C9. An upload whose file has a mime type outside the allowed set, or
    more than 50 MB (52428800 bytes), is answered with a 400-class status
    and the route handler is not run: the store after the request is the
    store before it, so no job was created (the store has the size it
    had); no runner was started and nothing is left on disk. *)
Theorem postUpload_rejects_invalid storage req file w :
  audio req = Some file ->
  ~ In (Incoming.mimetype file) ["audio/mpeg"; "audio/wav"; "audio/mp4"; "audio/m4a"] \/
  52428800 < Incoming.size file ->
  exists response w',
    postUpload storage req w = (Normal response, w') /\
    400 <= statusCode response < 500 /\
    store w' = store w /\
    JsMap.size (store w') = JsMap.size (store w) /\
    started w' = started w /\
    disk w' = disk w.
Proof.
  intros Haudio Hinvalid.
  assert (Hthrown : exists error w',
    upload_single (audio req) w = (Throw error, w') /\
    store w' = store w /\ started w' = started w /\ disk w' = disk w).
  { rewrite Haudio. unfold upload_single, fileFilter.
    destruct (includes allowedTypes (Incoming.mimetype file)) eqn:Hallowed.
    - destruct Hinvalid as [Hmime|Hsize].
      + exfalso. apply Hmime. by apply includes_In.
      + unfold bind, randomUUID.
        replace (fileSize_limit <=? Incoming.size file) with true
          by (symmetry; apply Z.leb_le; unfold fileSize_limit; lia).
        by eexists _, _.
    - by eexists _, _. }
  destruct Hthrown as (error & w' & Hthrown & Hstore & Hstarted & Hdisk).
  unfold postUpload. rewrite Hthrown. unfold errorMiddleware, ret.
  eexists _, w'. split; [reflexivity|]. simpl. split; [lia|].
  by rewrite Hstore.
Qed.

Lemma postUpload_rejects_invalid_witness :
  (exists response w',
     postUpload Singleton.storage textRequest uploadedWorld = (Normal response, w') /\
     400 <= statusCode response < 500 /\
     store w' = store uploadedWorld) /\
  (exists response w',
     postUpload Singleton.storage oversizedRequest uploadedWorld = (Normal response, w') /\
     400 <= statusCode response < 500 /\
     store w' = store uploadedWorld).
Proof.
  split.
  - destruct (postUpload_rejects_invalid Singleton.storage textRequest
                {| Incoming.originalname := "notes.mp3";
                   Incoming.mimetype := "text/plain";
                   Incoming.size := 120 |} uploadedWorld)
      as (response & w' & Hrun & Hstatus & Hstore & _).
    + reflexivity.
    + left. intros Hin. repeat (destruct Hin as [Hin|Hin]; [discriminate|]). exact Hin.
    + exists response, w'. exact (conj Hrun (conj Hstatus Hstore)).
  - destruct (postUpload_rejects_invalid Singleton.storage oversizedRequest
                {| Incoming.originalname := "mix.mp3";
                   Incoming.mimetype := "audio/mpeg";
                   Incoming.size := 52428801 |} uploadedWorld)
      as (response & w' & Hrun & Hstatus & Hstore & _).
    + reflexivity.
    + right. simpl. lia.
    + exists response, w'. exact (conj Hrun (conj Hstatus Hstore)).
Defined.

(** ** The statements at the sample worlds *)

Lemma fileVanishes_leaves id : leaves id fileVanishes.
Proof. intros step w. unfold fileVanishes. by destruct (step =? 4)%nat. Qed.

Lemma otherRunner_leaves id : id <> "facade" -> leaves id otherRunner.
Proof.
  intros Hne step w. unfold otherRunner, job.
  cbn [updateConversion Singleton.storage].
  unfold on_store, MemStorage.updateConversion.
  destruct (JsMap.get "facade" (store w)); simpl; [|done].
  by apply get_set_ne.
Qed.

Lemma updateConversion_merges_witness :
  JsMap.get "0b5e55" (store uploadedWorld) = Some sampleJob /\
  exists updated this',
    MemStorage.updateConversion "0b5e55" (processingUpdate 10) (store uploadedWorld)
    = (Some updated, this') /\
    field_of F_progress updated = VNumber 10 /\
    field_of F_originalFilename updated = VText "beat.wav".
Proof.
  assert (H : JsMap.get "0b5e55" (store uploadedWorld) = Some sampleJob)
    by (vm_compute; reflexivity).
  split; [exact H|].
  destruct (updateConversion_merges "0b5e55" (processingUpdate 10) (store uploadedWorld)
              sampleJob H) as (updated & this' & Hrun & _ & Hnamed & Hkept & _).
  exists updated, this'. split; [exact Hrun|]. split.
  - by apply Hnamed.
  - by rewrite Hkept.
Defined.

Lemma updateConversion_unknown_witness :
  JsMap.get "facade" (store uploadedWorld) = None /\
  MemStorage.updateConversion "facade" failedUpdate (store uploadedWorld)
  = (None, store uploadedWorld).
Proof.
  assert (H : JsMap.get "facade" (store uploadedWorld) = None)
    by (vm_compute; reflexivity).
  split; [exact H|].
  exact (updateConversion_unknown "facade" failedUpdate (store uploadedWorld) H).
Defined.

Lemma processAudioFile_full_run_witness :
  job "0b5e55" uploadedWorld = Some sampleJob /\
  leaves "0b5e55" otherRunner /\
  processAudioFile Singleton.storage otherRunner "0b5e55" uploadedWorld
  = (Normal tt,
     snd (iterations Singleton.storage otherRunner "0b5e55" sampleJob totalSteps
            uploadedWorld)) /\
  (exists updated,
     job "0b5e55"
       (snd (iterations Singleton.storage otherRunner "0b5e55" sampleJob 3 uploadedWorld))
     = Some updated /\
     Conversion.status updated = processing /\
     Conversion.progress updated = 30).
Proof.
  assert (Hjob : job "0b5e55" uploadedWorld = Some sampleJob)
    by (vm_compute; reflexivity).
  assert (Hleaves : leaves "0b5e55" otherRunner)
    by (apply otherRunner_leaves; discriminate).
  split; [exact Hjob|]. split; [exact Hleaves|].
  destruct (processAudioFile_full_run otherRunner "0b5e55" uploadedWorld sampleJob
              Hjob Hleaves) as (Hrun & _ & Hsteps & _).
  split; [exact Hrun|].
  destruct (Hsteps 3%nat ltac:(lia))
    as (_ & before & updated & _ & Hupdated & _ & Hstatus & Hprogress & _).
  exists updated. exact (conj Hupdated (conj Hstatus Hprogress)).
Defined.


Lemma convertedFilePath_iff_completed_witness :
  fst (postUpload Singleton.storage sampleRequest emptyWorld)
  = Normal {| statusCode := 200; json := JConversion sampleJob |} /\
  leaves "0b5e55" idle /\
  exists c,
    job "0b5e55"
      (snd (processAudioFile (rejectingStorage rejectsHalfway) idle "0b5e55" uploadedWorld))
    = Some c /\
    path_iff_completed c.
Proof.
  assert (Hcreated :
    fst (postUpload Singleton.storage sampleRequest emptyWorld)
    = Normal {| statusCode := 200; json := JConversion sampleJob |})
    by (vm_compute; reflexivity).
  split; [exact Hcreated|]. split; [apply idle_leaves|].
  exact (proj2 (convertedFilePath_iff_completed rejectsHalfway idle sampleRequest emptyWorld
                  sampleJob Hcreated (idle_leaves _))).
Defined.

Lemma job_lifecycle_witness :
  fst (postUpload Singleton.storage sampleRequest emptyWorld)
  = Normal {| statusCode := 200; json := JConversion sampleJob |} /\
  leaves "0b5e55" idle /\
  moves "0b5e55"
    (snd (iterations (rejectingStorage rejectsHalfway) idle "0b5e55" sampleJob totalSteps
            uploadedWorld))
    (snd (processAudioFile (rejectingStorage rejectsHalfway) idle "0b5e55" uploadedWorld)).
Proof.
  assert (Hcreated :
    fst (postUpload Singleton.storage sampleRequest emptyWorld)
    = Normal {| statusCode := 200; json := JConversion sampleJob |})
    by (vm_compute; reflexivity).
  split; [exact Hcreated|]. split; [apply idle_leaves|].
  exact (proj2 (proj2 (job_lifecycle rejectsHalfway idle sampleRequest emptyWorld
                         sampleJob Hcreated (idle_leaves _)))).
Defined.

(** An update that carries another [id]: the merged record stays under
    the key it had, and no record appears under the new [id]. *)
Example updateConversion_id_override :
  let updates :=
    {| Partial.id := Some "facade"; Partial.originalFilename := None;
       Partial.originalFilePath := None; Partial.convertedFilePath := None;
       Partial.intensity := None; Partial.status := None; Partial.progress := None;
       Partial.metadata := None; Partial.createdAt := Some 7;
       Partial.completedAt := None |} in
  let this' := snd (MemStorage.updateConversion "0b5e55" updates (store uploadedWorld)) in
  JsMap.keys this' = ["0b5e55"] /\
  (Conversion.id <$> JsMap.get "0b5e55" this') = Some "facade" /\
  (Conversion.createdAt <$> JsMap.get "0b5e55" this') = Some 7 /\
  JsMap.get "facade" this' = None.
Proof. repeat split; vm_compute; reflexivity. Qed.

(** Records created at the same instant are listed in insertion order,
    after the newer ones. *)
Example getAllConversions_ties :
  let insert name :=
    {| InsertConversion.originalFilename := name;
       InsertConversion.originalFilePath := "uploads/c0ffee";
       InsertConversion.convertedFilePath := None;
       InsertConversion.intensity := soft;
       InsertConversion.status := None;
       InsertConversion.progress := None;
       InsertConversion.metadata := None |} in
  let s1 := snd (MemStorage.createConversion "a" 5 (insert "first") MemStorage.new) in
  let s2 := snd (MemStorage.createConversion "b" 5 (insert "second") s1) in
  let s3 := snd (MemStorage.createConversion "c" 9 (insert "third") s2) in
  let s4 := snd (MemStorage.createConversion "d" 5 (insert "fourth") s3) in
  map Conversion.originalFilename (fst (MemStorage.getAllConversions s4))
  = ["third"; "first"; "second"; "fourth"].
Proof. vm_compute. reflexivity. Qed.

(** * Further properties of the code *)

(** ** The store: creation *)

Lemma values_set_absent {V} (m : JsMap.t V) k v :
  JsMap.get k m = None -> JsMap.values (JsMap.set k v m) = (JsMap.values m ++ [v])%list.
Proof.
  induction m as [|[k0 v0] rest IH]; simpl; intros Hget; [done|].
  destruct (String.eqb k k0); [discriminate|]. simpl. f_equal. by apply IH.
Qed.

Lemma size_set_absent {V} (m : JsMap.t V) k v :
  JsMap.get k m = None -> JsMap.size (JsMap.set k v m) = S (JsMap.size m).
Proof.
  intros H. unfold JsMap.size.
  rewrite <- (length_map fst (JsMap.set k v m)), <- (length_map fst m).
  fold (JsMap.keys (JsMap.set k v m)). fold (JsMap.keys m).
  rewrite keys_set_absent by done. rewrite length_app. simpl. lia.
Qed.

(** X1. [createConversion] then [getConversion]: the record that was returned
    is the one stored under the new id, with no completion date; the
    records under the other ids are untouched; the store grows by one
    record, unless the id was already in use, in which case the record
    that was there is replaced. *)
Theorem createConversion_then_get uuid now insertConversion this :
  let created := fst (MemStorage.createConversion uuid now insertConversion this) in
  let this' := snd (MemStorage.createConversion uuid now insertConversion this) in
  fst (MemStorage.getConversion uuid this') = Some created /\
  Conversion.id created = uuid /\
  Conversion.createdAt created = now /\
  Conversion.completedAt created = None /\
  (forall id', id' <> uuid -> JsMap.get id' this' = JsMap.get id' this) /\
  JsMap.size this' =
    match JsMap.get uuid this with
    | Some _ => JsMap.size this
    | None => S (JsMap.size this)
    end /\
  (NoDup (JsMap.keys this) -> NoDup (JsMap.keys this')).
Proof.
  unfold MemStorage.createConversion, MemStorage.getConversion. cbn [fst snd].
  split; [apply get_set_eq|]. do 3 (split; [done|]).
  split; [intros id' Hne; by apply get_set_ne|].
  split; [|apply keys_set_NoDup].
  destruct (JsMap.get uuid this) eqn:Hget.
  - apply size_set_present. rewrite Hget. eauto.
  - by apply size_set_absent.
Qed.

Lemma Array_sort_newest_last l c :
  Forall (fun a => Conversion.createdAt a < Conversion.createdAt c) l ->
  Array_sort MemStorage.byCreatedAtDesc (l ++ [c])
  = c :: Array_sort MemStorage.byCreatedAtDesc l.
Proof.
  induction 1 as [|a l Ha Hl IH]; [done|].
  cbn [app Array_sort fold_right].
  fold (Array_sort MemStorage.byCreatedAtDesc (l ++ [c])).
  fold (Array_sort MemStorage.byCreatedAtDesc l).
  rewrite IH. cbn [sort_insert]. unfold MemStorage.byCreatedAtDesc at 1.
  destruct (Z.leb_spec (Conversion.createdAt c - Conversion.createdAt a) 0); [lia|done].
Qed.

(** X2. A record created under a fresh id at an instant later than every
    record of the store heads the listing, and the rest of the listing is
    the listing of before. *)
Theorem createConversion_listed_first uuid now insertConversion this :
  JsMap.get uuid this = None ->
  Forall (fun c => Conversion.createdAt c < now) (JsMap.values this) ->
  fst (MemStorage.getAllConversions
         (snd (MemStorage.createConversion uuid now insertConversion this)))
  = fst (MemStorage.createConversion uuid now insertConversion this)
    :: fst (MemStorage.getAllConversions this).
Proof.
  intros Hfresh Hnewer.
  unfold MemStorage.getAllConversions, MemStorage.createConversion. cbn [fst snd].
  rewrite values_set_absent by done.
  by apply Array_sort_newest_last.
Qed.

Lemma createConversion_listed_first_witness :
  JsMap.get "facade" (store uploadedWorld) = None /\
  map Conversion.id
    (fst (MemStorage.getAllConversions
            (snd (MemStorage.createConversion "facade" 5000
                    {| InsertConversion.originalFilename := "b.mp3";
                       InsertConversion.originalFilePath := "uploads/b";
                       InsertConversion.convertedFilePath := None;
                       InsertConversion.intensity := soft;
                       InsertConversion.status := None;
                       InsertConversion.progress := None;
                       InsertConversion.metadata := None |}
                    (store uploadedWorld)))))
  = ["facade"; "0b5e55"].
Proof.
  assert (Hfresh : JsMap.get "facade" (store uploadedWorld) = None)
    by (vm_compute; reflexivity).
  split; [exact Hfresh|].
  rewrite createConversion_listed_first.
  - vm_compute. reflexivity.
  - exact Hfresh.
  - vm_compute. repeat constructor.
Defined.

(** ** The store: updates and the listing *)

Lemma sort_insert_related (R : Conversion.t -> Conversion.t -> Prop) a a' s s' :
  (forall x y, R x y -> Conversion.createdAt y = Conversion.createdAt x) ->
  R a a' -> Forall2 R s s' ->
  Forall2 R (sort_insert MemStorage.byCreatedAtDesc a s)
            (sort_insert MemStorage.byCreatedAtDesc a' s').
Proof.
  intros Hkey Ha Hs. induction Hs as [|b b' s s' Hb Hs IH]; simpl.
  - by repeat constructor.
  - unfold MemStorage.byCreatedAtDesc.
    rewrite (Hkey _ _ Ha), (Hkey _ _ Hb).
    destruct (_ <=? 0); by repeat constructor.
Qed.

Lemma Array_sort_related (R : Conversion.t -> Conversion.t -> Prop) l l' :
  (forall x y, R x y -> Conversion.createdAt y = Conversion.createdAt x) ->
  Forall2 R l l' ->
  Forall2 R (Array_sort MemStorage.byCreatedAtDesc l)
            (Array_sort MemStorage.byCreatedAtDesc l').
Proof.
  intros Hkey Hl. induction Hl as [|a a' l l' Ha Hl IH]; simpl; [constructor|].
  by apply sort_insert_related.
Qed.

Lemma values_set_related {V} (R : V -> V -> Prop) (m : JsMap.t V) k old v :
  (forall x, R x x) -> R old v ->
  JsMap.get k m = Some old ->
  Forall2 R (JsMap.values m) (JsMap.values (JsMap.set k v m)).
Proof.
  intros Hrefl Hold. induction m as [|[k0 v0] rest IH]; simpl; [done|].
  destruct (String.eqb k k0); simpl.
  - intros [= ->]. constructor; [done|]. by apply Forall_Forall2_diag, Forall_true.
  - intros Hget. constructor; [done|by apply IH].
Qed.

(** X3. An update that does not name [createdAt] reorders nothing: position
    by position, the listing after the update holds the record the listing
    held before, or, in the place of the updated record, its merge with
    the update. *)
Theorem updateConversion_keeps_listing id updates this existing :
  JsMap.get id this = Some existing ->
  Partial.createdAt updates = None ->
  Forall2 (fun before after =>
             after = before \/ (before = existing /\ after = spread existing updates))
    (fst (MemStorage.getAllConversions this))
    (fst (MemStorage.getAllConversions
            (snd (MemStorage.updateConversion id updates this)))).
Proof.
  intros Hget Hcreated.
  unfold MemStorage.getAllConversions, MemStorage.updateConversion.
  rewrite Hget. cbn [fst snd].
  apply Array_sort_related.
  - intros x y [->|[-> ->]]; [done|]. simpl. by rewrite Hcreated.
  - apply (values_set_related _ this id existing); [by left| |done]. by right.
Qed.

Lemma updateConversion_keeps_listing_witness :
  JsMap.get "0b5e55" (store uploadedWorld) = Some sampleJob /\
  Forall2 (fun before after =>
             after = before \/
             (before = sampleJob /\ after = spread sampleJob (processingUpdate 30)))
    (fst (MemStorage.getAllConversions (store uploadedWorld)))
    (fst (MemStorage.getAllConversions
            (snd (MemStorage.updateConversion "0b5e55" (processingUpdate 30)
                    (store uploadedWorld))))).
Proof.
  assert (H : JsMap.get "0b5e55" (store uploadedWorld) = Some sampleJob)
    by (vm_compute; reflexivity).
  split; [exact H|].
  exact (updateConversion_keeps_listing "0b5e55" (processingUpdate 30) (store uploadedWorld)
           sampleJob H eq_refl).
Defined.

(** ** The runner writes one record *)

Lemma rejecting_update_frame rejects id id' updates w :
  id' <> id ->
  job id' (snd (updateConversion (rejectingStorage rejects) id updates w)) = job id' w.
Proof.
  intros Hne. simpl. destruct (rejects updates); [done|].
  unfold on_store, MemStorage.updateConversion, job.
  destruct (JsMap.get id (store w)); simpl; [|done].
  by apply get_set_ne.
Qed.

Lemma loopBody_frame rejects meanwhile id id' conv step w :
  id' <> id -> leaves id' meanwhile ->
  job id' (snd (loopBody (rejectingStorage rejects) meanwhile id conv step w)) = job id' w.
Proof.
  intros Hne Hleaves.
  rewrite <- (job_resumed meanwhile id' step w Hleaves).
  unfold loopBody, bind, sleep. fold (resumed meanwhile step w).
  destruct (step =? totalSteps)%nat.
  - destruct (copyOriginal_spec conv (outputPathOf id) (resumed meanwhile step w))
      as (d & c & ->).
    unfold new_Date.
    set (w1 := with_console c (with_disk d (resumed meanwhile step w))).
    change (job id' (resumed meanwhile step w)) with (job id' w1).
    rewrite <- (rejecting_update_frame rejects id id' (completedUpdate (progressOf step)
                 (outputPathOf id) (clock w1)) w1 Hne).
    by destruct (updateConversion _ _ _ w1) as [[?|?] ?].
  - rewrite <- (rejecting_update_frame rejects id id' (processingUpdate (progressOf step))
                 (resumed meanwhile step w) Hne).
    by destruct (updateConversion _ _ _ _) as [[?|?] ?].
Qed.

Lemma iterations_frame rejects meanwhile id id' conv n w :
  id' <> id -> leaves id' meanwhile ->
  job id' (snd (iterations (rejectingStorage rejects) meanwhile id conv n w)) = job id' w.
Proof.
  intros Hne Hleaves. induction n as [|n IH]; [done|].
  rewrite iterations_S.
  destruct (iterations _ _ _ _ n w) as [[[]|e] w'] eqn:Hrun; simpl in IH; [|done].
  rewrite <- IH. by apply loopBody_frame.
Qed.

(** X4. Whatever happens in a run of the runner of job [id] (job present or
    not, writes accepted or rejected), the record of any other job whose
    record the rest of the process leaves alone is, at the end of the run,
    the record it was at the start. *)
Theorem processAudioFile_frame rejects meanwhile id id' w :
  id' <> id ->
  leaves id' meanwhile ->
  job id' (snd (processAudioFile (rejectingStorage rejects) meanwhile id w)) = job id' w.
Proof.
  intros Hne Hleaves.
  destruct (job id w) as [conv|] eqn:Hjob.
  - rewrite (processAudioFile_unfold rejects meanwhile id w conv Hjob).
    pose proof (iterations_frame rejects meanwhile id id' conv totalSteps w Hne Hleaves)
      as Hframe.
    destruct (iterations _ _ _ _ totalSteps w) as [[[]|e] w']; simpl in Hframe; [done|].
    cbv zeta. set (w'' := with_console _ w').
    rewrite <- Hframe. change (job id' w') with (job id' w'').
    rewrite <- (rejecting_update_frame rejects id id' failedUpdate w'' Hne).
    by destruct (updateConversion _ _ _ w'') as [[?|?] ?].
  - by rewrite processAudioFile_missing.
Qed.

Lemma processAudioFile_frame_witness :
  leaves "facade" idle /\
  is_Some (job "facade" twoJobsWorld) /\
  job "facade"
    (snd (processAudioFile (rejectingStorage rejectsHalfway) idle "0b5e55" twoJobsWorld))
  = job "facade" twoJobsWorld.
Proof.
  split; [apply idle_leaves|]. split; [vm_compute; eauto|].
  apply processAudioFile_frame; [discriminate|apply idle_leaves].
Defined.

(** ** The upload route *)

(** X5. An upload with an allowed mime type, fewer than 52428800 bytes and an
    intensity that is soft, medium or heavy (medium when the field is
    absent or empty) is answered 200 with the new record.  The file is on
    disk under [uploads/] with a name from the random source; the record
    has the next random value as id, the client's file name, that path,
    the intensity, status pending, progress 0, the size and mime type as
    metadata and the instant of the request as creation date; it is in the
    store under its id, and one run of the runner is started for it. *)
Theorem postUpload_accepts req file i w :
  audio req = Some file ->
  In (Incoming.mimetype file) ["audio/mpeg"; "audio/wav"; "audio/mp4"; "audio/m4a"] ->
  Incoming.size file < 52428800 ->
  parseIntensity (or_else (intensity req) "medium") = Some i ->
  let path := "uploads/" ++ random w (drawn w) in
  let id := random w (S (drawn w)) in
  let created :=
    {| Conversion.id := id;
       Conversion.originalFilename := Incoming.originalname file;
       Conversion.originalFilePath := path;
       Conversion.convertedFilePath := None;
       Conversion.intensity := i;
       Conversion.status := pending;
       Conversion.progress := 0;
       Conversion.metadata :=
         Some {| fileSize := Incoming.size file; mimeType := Incoming.mimetype file |};
       Conversion.createdAt := clock w;
       Conversion.completedAt := None |} in
  postUpload Singleton.storage req w =
  (Normal {| statusCode := 200; json := JConversion created |},
   {| store := JsMap.set id created (store w);
      disk := <[path := RegularFile (Incoming.size file)]> (disk w);
      clock := clock w;
      console := console w;
      random := random w;
      drawn := S (S (drawn w));
      started := started w ++ [id] |}).
Proof.
  intros Haudio Hmime Hsize Hintensity.
  unfold postUpload, upload_single. rewrite Haudio. unfold fileFilter.
  rewrite (proj2 (includes_In allowedTypes _) Hmime).
  unfold bind, randomUUID.
  replace (fileSize_limit <=? Incoming.size file) with false
    by (symmetry; apply Z.leb_gt; unfold fileSize_limit; lia).
  unfold fs_write, ret, uploadHandler, try_catch.
  cbn [MulterFile.originalname MulterFile.path MulterFile.size MulterFile.mimetype].
  unfold safeParse. cbn [Unvalidated.intensity]. rewrite Hintensity.
  reflexivity.
Qed.

Lemma postUpload_accepts_witness :
  postUpload Singleton.storage sampleRequest emptyWorld
  = (Normal {| statusCode := 200; json := JConversion sampleJob |},
     {| store := JsMap.set "0b5e55" sampleJob [];
        disk := <["uploads/c0ffee" := RegularFile 2097152]> ∅;
        clock := 1000; console := []; random := sampleRandom; drawn := 2;
        started := ["0b5e55"] |}).
Proof.
  apply (postUpload_accepts sampleRequest
           {| Incoming.originalname := "beat.wav"; Incoming.mimetype := "audio/wav";
              Incoming.size := 2097152 |} heavy emptyWorld).
  - reflexivity.
  - simpl. tauto.
  - simpl. lia.
  - reflexivity.
Defined.

(** X6. No job without an acceptable request: when the file part is missing,
    its mime type is not allowed, it is longer than the limit, or the
    intensity is none of soft, medium and heavy, the request leaves the
    store as it was and starts no runner. *)
Theorem postUpload_refuses req w :
  ~ acceptable req ->
  store (snd (postUpload Singleton.storage req w)) = store w /\
  started (snd (postUpload Singleton.storage req w)) = started w.
Proof.
  intros Hbad. unfold postUpload, upload_single.
  destruct (audio req) as [file|] eqn:Haudio; [|done].
  unfold fileFilter.
  destruct (includes allowedTypes (Incoming.mimetype file)) eqn:Hmime; [|done].
  unfold bind, randomUUID.
  destruct (Z.leb_spec fileSize_limit (Incoming.size file)) as [Hbig|Hsize]; [done|].
  unfold fs_write, ret, uploadHandler, try_catch.
  cbn [MulterFile.originalname MulterFile.path MulterFile.size MulterFile.mimetype].
  unfold safeParse. cbn [Unvalidated.intensity].
  destruct (parseIntensity _) as [i|] eqn:Hintensity; [|done].
  exfalso. apply Hbad. exists file. split; [done|]. split; [by apply includes_In|].
  split; [lia|]. rewrite Hintensity. eauto.
Qed.

Lemma postUpload_refuses_witness :
  ~ acceptable {| audio := None; intensity := Some "heavy" |} /\
  store (snd (postUpload Singleton.storage {| audio := None; intensity := Some "heavy" |}
                uploadedWorld))
  = store uploadedWorld.
Proof.
  assert (Hbad : ~ acceptable {| audio := None; intensity := Some "heavy" |})
    by (intros (file & Hfile & _); discriminate).
  split; [exact Hbad|].
  exact (proj1 (postUpload_refuses _ uploadedWorld Hbad)).
Defined.

(** X7. A file of an allowed mime type and fewer than 52428800 bytes, sent
    with an intensity that is none of soft, medium and heavy: the request
    is answered 400 and no job is created, but the file multer stored stays
    on disk, under a path no record refers to. *)
Theorem postUpload_invalid_intensity req file w :
  audio req = Some file ->
  In (Incoming.mimetype file) ["audio/mpeg"; "audio/wav"; "audio/mp4"; "audio/m4a"] ->
  Incoming.size file < 52428800 ->
  parseIntensity (or_else (intensity req) "medium") = None ->
  let path := "uploads/" ++ random w (drawn w) in
  exists w',
    postUpload Singleton.storage req w =
    (Normal {| statusCode := 400; json := JInvalid "Invalid request data" ["intensity"] |},
     w') /\
    store w' = store w /\
    started w' = started w /\
    disk w' = <[path := RegularFile (Incoming.size file)]> (disk w).
Proof.
  intros Haudio Hmime Hsize Hintensity.
  unfold postUpload, upload_single. rewrite Haudio. unfold fileFilter.
  rewrite (proj2 (includes_In allowedTypes _) Hmime).
  unfold bind, randomUUID.
  replace (fileSize_limit <=? Incoming.size file) with false
    by (symmetry; apply Z.leb_gt; unfold fileSize_limit; lia).
  unfold fs_write, ret, uploadHandler, try_catch.
  cbn [MulterFile.originalname MulterFile.path MulterFile.size MulterFile.mimetype].
  unfold safeParse. cbn [Unvalidated.intensity]. rewrite Hintensity.
  eexists. split; [reflexivity|]. done.
Qed.

Lemma postUpload_invalid_intensity_witness :
  exists w',
    postUpload Singleton.storage
      {| audio := audio sampleRequest; intensity := Some "extreme" |} emptyWorld
    = (Normal {| statusCode := 400; json := JInvalid "Invalid request data" ["intensity"] |},
       w') /\
    disk w' = <["uploads/c0ffee" := RegularFile 2097152]> ∅.
Proof.
  destruct (postUpload_invalid_intensity
              {| audio := audio sampleRequest; intensity := Some "extreme" |}
              {| Incoming.originalname := "beat.wav"; Incoming.mimetype := "audio/wav";
                 Incoming.size := 2097152 |} emptyWorld)
    as (w' & Hrun & _ & _ & Hdisk).
  - reflexivity.
  - simpl. tauto.
  - simpl. lia.
  - reflexivity.
  - exists w'. exact (conj Hrun Hdisk).
Defined.

(** ** The routes that read *)

Lemma getConversion_singleton id w :
  getConversion Singleton.storage id w = (Normal (job id w), w).
Proof.
  cbn [getConversion Singleton.storage].
  unfold on_store, MemStorage.getConversion, job. by rewrite with_store_same.
Qed.

Lemma getConversionRoute_singleton id w :
  getConversionRoute Singleton.storage id w =
    (Normal (Answered
       match job id w with
       | Some conversion => {| statusCode := 200; json := JConversion conversion |}
       | None => {| statusCode := 404; json := JMessage "Conversion not found" |}
       end), w).
Proof.
  unfold getConversionRoute, try_catch, bind. rewrite getConversion_singleton.
  by destruct (job id w).
Qed.

Lemma getConversionsRoute_singleton w :
  getConversionsRoute Singleton.storage w =
    (Normal (Listed (fst (MemStorage.getAllConversions (store w)))), w).
Proof.
  unfold getConversionsRoute, try_catch, bind.
  cbn [getAllConversions Singleton.storage].
  unfold on_store, MemStorage.getAllConversions. by rewrite with_store_same.
Qed.

(** X8. On the in-memory store the three GET routes change nothing (store,
    disk, console and the rest of the world are as before) and never
    answer 500: the status route answers 200 with the stored record or 404,
    the listing route answers with the listing, and the download route
    answers with a 404 or with the download of a file that is on disk at
    the path the record names. *)
Theorem read_routes_read_only parsedName id w :
  getConversionRoute Singleton.storage id w =
    (Normal (Answered
       match job id w with
       | Some conversion => {| statusCode := 200; json := JConversion conversion |}
       | None => {| statusCode := 404; json := JMessage "Conversion not found" |}
       end), w) /\
  getConversionsRoute Singleton.storage w =
    (Normal (Listed (fst (MemStorage.getAllConversions (store w)))), w) /\
  exists answer,
    downloadRoute Singleton.storage parsedName id w = (Normal answer, w) /\
    match answer with
    | Answered response => statusCode response = 404
    | Listed _ => False
    | Download path _ =>
        exists conversion,
          job id w = Some conversion /\
          Conversion.convertedFilePath conversion = Some path /\
          is_Some (disk w !! path)
    end.
Proof.
  split; [apply getConversionRoute_singleton|].
  split; [apply getConversionsRoute_singleton|].
  unfold downloadRoute, try_catch, bind. rewrite getConversion_singleton.
  destruct (job id w) as [conversion|]; [|by eexists].
  destruct (Conversion.convertedFilePath conversion) as [path|] eqn:Hpath; [|by eexists].
  destruct (String.eqb path ""); [by eexists|].
  unfold fs_existsSync. destruct (disk w !! path) as [node|] eqn:Hnode.
  - rewrite bool_decide_eq_true_2 by eauto. simpl.
    eexists. split; [reflexivity|]. exists conversion. rewrite Hnode. eauto.
  - rewrite bool_decide_eq_false_2 by (intros [? ?]; discriminate). simpl.
    by eexists.
Qed.

Lemma postUpload_created_store req w j :
  fst (postUpload Singleton.storage req w)
  = Normal {| statusCode := 200; json := JConversion j |} ->
  store (snd (postUpload Singleton.storage req w))
  = JsMap.set (Conversion.id j) j (store w) /\
  Conversion.createdAt j = clock w.
Proof.
  unfold postUpload, upload_single.
  destruct (audio req) as [file|]; [|discriminate].
  destruct (fileFilter file) as [[|]|error]; [|discriminate|discriminate].
  unfold bind, throw, randomUUID.
  destruct (fileSize_limit <=? Incoming.size file); [discriminate|].
  unfold fs_write, ret, uploadHandler, try_catch.
  cbn [MulterFile.originalname MulterFile.path MulterFile.size MulterFile.mimetype].
  destruct (safeParse _) as [data|errors] eqn:Hparse; [|discriminate].
  cbn -[JsMap.set]. intros [= <-]. done.
Qed.

(** X9. The record an upload returns is the record the status route returns
    for its id right after, and it heads the listing when every older
    record was created before the instant of the upload. *)
Theorem upload_then_read req w j :
  fst (postUpload Singleton.storage req w)
  = Normal {| statusCode := 200; json := JConversion j |} ->
  let w' := snd (postUpload Singleton.storage req w) in
  getConversionRoute Singleton.storage (Conversion.id j) w' =
    (Normal (Answered {| statusCode := 200; json := JConversion j |}), w') /\
  (JsMap.get (Conversion.id j) (store w) = None ->
   Forall (fun c => Conversion.createdAt c < clock w) (JsMap.values (store w)) ->
   getConversionsRoute Singleton.storage w' =
     (Normal (Listed (j :: fst (MemStorage.getAllConversions (store w)))), w')).
Proof.
  intros Hcreated w'.
  destruct (postUpload_created req w j Hcreated) as (Hjob & _).
  fold w' in Hjob.
  split.
  - rewrite getConversionRoute_singleton. by rewrite Hjob.
  - intros Hfresh Hnewer.
    rewrite getConversionsRoute_singleton.
    destruct (postUpload_created_store req w j Hcreated) as (Hstore & Hclock).
    unfold MemStorage.getAllConversions. cbn [fst]. subst w'. rewrite Hstore.
    rewrite values_set_absent by done.
    rewrite Array_sort_newest_last; [done|]. by rewrite Hclock.
Qed.

Lemma upload_then_read_witness :
  getConversionRoute Singleton.storage "0b5e55" uploadedWorld =
    (Normal (Answered {| statusCode := 200; json := JConversion sampleJob |}), uploadedWorld) /\
  getConversionsRoute Singleton.storage uploadedWorld =
    (Normal (Listed [sampleJob]), uploadedWorld).
Proof.
  assert (Hcreated :
    fst (postUpload Singleton.storage sampleRequest emptyWorld)
    = Normal {| statusCode := 200; json := JConversion sampleJob |})
    by (vm_compute; reflexivity).
  destruct (upload_then_read sampleRequest emptyWorld sampleJob Hcreated) as (Hget & Hlist).
  split; [exact Hget|].
  apply Hlist; [reflexivity|constructor].
Defined.

(** ** Downloads along the life of a job *)

Lemma phase_keeps id j n c :
  phase id j n c ->
  Conversion.id c = Conversion.id j /\
  Conversion.originalFilename c = Conversion.originalFilename j /\
  Conversion.intensity c = Conversion.intensity j.
Proof. by destruct 1. Qed.

Lemma downloadRoute_no_path parsedName id w c :
  job id w = Some c ->
  Conversion.convertedFilePath c = None ->
  downloadRoute Singleton.storage parsedName id w =
  (Normal (Answered {| statusCode := 404; json := JMessage "File not found" |}), w).
Proof.
  intros Hjob Hpath.
  unfold downloadRoute, try_catch, bind. rewrite getConversion_singleton, Hjob.
  by rewrite Hpath.
Qed.

(** X10. As long as the runner of a job has not made its last iteration, and
    also at the end of a run that a rejected write has stopped, a download
    of the job is answered 404 "File not found". *)
Theorem download_before_completion rejects meanwhile parsedName req w j :
  fst (postUpload Singleton.storage req w)
  = Normal {| statusCode := 200; json := JConversion j |} ->
  leaves (Conversion.id j) meanwhile ->
  let id := Conversion.id j in
  let created := snd (postUpload Singleton.storage req w) in
  let notFound :=
    Answered {| statusCode := 404; json := JMessage "File not found" |} in
  (forall n, (n < totalSteps)%nat ->
     let world := snd (iterations (rejectingStorage rejects) meanwhile id j n created) in
     downloadRoute Singleton.storage parsedName id world = (Normal notFound, world)) /\
  (fst (iterations (rejectingStorage rejects) meanwhile id j totalSteps created)
   <> Normal tt ->
   let final := snd (processAudioFile (rejectingStorage rejects) meanwhile id created) in
   downloadRoute Singleton.storage parsedName id final = (Normal notFound, final)).
Proof.
  intros Hcreated Hleaves id created notFound.
  destruct (postUpload_created req w j Hcreated) as (Hjob & Hj & _).
  fold id created in Hjob.
  split.
  - intros n Hn world. subst world.
    pose proof (iterations_reached rejects meanwhile id j created n Hleaves Hjob
                  ltac:(lia)) as Hreached.
    destruct (iterations _ _ _ _ n created) as [[[]|e] w']; simpl in *.
    + destruct Hreached as (c & Hc & Hphase).
      apply (downloadRoute_no_path _ _ _ c Hc).
      by destruct (phase_running id j n c Hj Hn Hphase) as (_ & ? & _).
    + destruct Hreached as (m & c & Hm & Hc & Hphase).
      apply (downloadRoute_no_path _ _ _ c Hc).
      by destruct (phase_running id j m c Hj ltac:(lia) Hphase) as (_ & ? & _).
  - intros Hstopped final. subst final.
    pose proof (iterations_reached rejects meanwhile id j created totalSteps Hleaves Hjob
                  ltac:(lia)) as Hreached.
    rewrite (processAudioFile_unfold rejects meanwhile id created j Hjob).
    destruct (iterations _ _ _ _ totalSteps created) as [[[]|e] w'];
      simpl in Hreached, Hstopped; [done|].
    destruct Hreached as (m & c & Hm & Hc & Hphase).
    destruct (phase_running id j m c Hj Hm Hphase) as (_ & Hpath & _).
    cbv zeta. set (w'' := with_console _ w').
    assert (Hc'' : job id w'' = Some c) by exact Hc.
    rewrite (rejecting_update rejects id failedUpdate w'' c Hc'').
    destruct (rejects failedUpdate); simpl.
    + by apply (downloadRoute_no_path _ _ _ c).
    + apply (downloadRoute_no_path _ _ _ (spread c failedUpdate)); [apply get_set_eq|].
      simpl. exact Hpath.
Qed.

Lemma download_before_completion_witness :
  downloadRoute Singleton.storage id "0b5e55"
    (snd (iterations (rejectingStorage rejectsHalfway) idle "0b5e55" sampleJob 4
            uploadedWorld))
  = (Normal (Answered {| statusCode := 404; json := JMessage "File not found" |}),
     snd (iterations (rejectingStorage rejectsHalfway) idle "0b5e55" sampleJob 4
            uploadedWorld)).
Proof.
  assert (Hcreated :
    fst (postUpload Singleton.storage sampleRequest emptyWorld)
    = Normal {| statusCode := 200; json := JConversion sampleJob |})
    by (vm_compute; reflexivity).
  apply (proj1 (download_before_completion rejectsHalfway idle id sampleRequest emptyWorld
                  sampleJob Hcreated (idle_leaves _)) 4%nat).
  unfold totalSteps. lia.
Defined.

(** The last iteration when the original file is there and the copy goes
    through. *)
Lemma loopBody_last_copied meanwhile id conv w before n :
  leaves id meanwhile ->
  job id w = Some before ->
  let w' := resumed meanwhile totalSteps w in
  disk w' !! Conversion.originalFilePath conv = Some (RegularFile n) ->
  disk w' !! outputPathOf id <> Some Directory ->
  loopBody Singleton.storage meanwhile id conv totalSteps w =
  (Normal tt,
   with_store
     (JsMap.set id (spread before (completedUpdate 100 (outputPathOf id) (clock w')))
        (store w'))
     (with_console
        (console w' ++ [ConsoleLog ("Created converted file: " ++ outputPathOf id)])
        (with_disk (<[outputPathOf id := RegularFile n]> (disk w')) w'))).
Proof.
  intros Hleaves Hjob w' Hthere Hfree.
  assert (Hres : JsMap.get id (store w') = Some before)
    by (by unfold w'; rewrite <- Hjob, <- (job_resumed meanwhile id totalSteps w Hleaves)).
  unfold loopBody, bind, sleep. fold (resumed meanwhile totalSteps w). fold w'.
  change (totalSteps =? totalSteps)%nat with true. cbv iota.
  unfold copyOriginal, try_catch, bind, fs_existsSync.
  rewrite bool_decide_eq_true_2 by (rewrite Hthere; eauto).
  unfold fs_copyFileSync. rewrite Hthere.
  assert (Hcopy :
    match disk w' !! outputPathOf id with
    | Some Directory => (Throw (SystemError "EISDIR" (outputPathOf id)), w')
    | _ => (Normal tt, with_disk (<[outputPathOf id := RegularFile n]> (disk w')) w')
    end = (Normal tt, with_disk (<[outputPathOf id := RegularFile n]> (disk w')) w')).
  { by destruct (disk w' !! outputPathOf id) as [[m|]|]. }
  rewrite Hcopy.
  unfold console_log, new_Date.
  cbn [updateConversion Singleton.storage].
  unfold on_store, MemStorage.updateConversion.
  cbn [store with_console with_disk clock]. rewrite Hres.
  reflexivity.
Qed.

Lemma singleton_before_last meanwhile id w conv :
  leaves id meanwhile ->
  job id w = Some conv ->
  exists before,
    job id (snd (iterations Singleton.storage meanwhile id conv 9 w)) = Some before /\
    Conversion.originalFilename before = Conversion.originalFilename conv /\
    Conversion.intensity before = Conversion.intensity conv /\
    processAudioFile Singleton.storage meanwhile id w
    = loopBody Singleton.storage meanwhile id conv totalSteps
        (snd (iterations Singleton.storage meanwhile id conv 9 w)).
Proof.
  intros Hleaves Hjob.
  destruct (processAudioFile_last_step meanwhile id w conv Hleaves Hjob)
    as ((before & Hbefore) & Hrun & _).
  exists before. split; [exact Hbefore|].
  pose proof (iterations_reached (fun _ => false) meanwhile id conv w 9 Hleaves Hjob
                ltac:(unfold totalSteps; lia)) as Hreached.
  change (rejectingStorage (fun _ => false)) with Singleton.storage in Hreached.
  destruct (iterations Singleton.storage meanwhile id conv 9 w) as [[[]|e] w9];
    simpl in *.
  - destruct Hreached as (c & Hc & Hphase).
    assert (c = before) as -> by congruence.
    by destruct (phase_keeps id conv 9 before Hphase) as (_ & ? & ?).
  - destruct Hreached as (m & c & Hm & Hc & Hphase).
    assert (c = before) as -> by congruence.
    by destruct (phase_keeps id conv m before Hphase) as (_ & ? & ?).
Qed.

(** X11. After a run whose last iteration finds the original file and can
    write the output path, a download of the job sends the file at
    [uploads/converted_{id}.mp3], which has the length of the original,
    under the name [{name}_drill_{intensity}.mp3], [name] being what
    [path.parse] makes of the client's file name. *)
Theorem download_after_run meanwhile parsedName id w conv n :
  job id w = Some conv ->
  leaves id meanwhile ->
  let w9 := snd (iterations Singleton.storage meanwhile id conv 9 w) in
  let w' := resumed meanwhile 10 w9 in
  let final := snd (processAudioFile Singleton.storage meanwhile id w) in
  disk w' !! Conversion.originalFilePath conv = Some (RegularFile n) ->
  disk w' !! outputPathOf id <> Some Directory ->
  disk final !! outputPathOf id = Some (RegularFile n) /\
  downloadRoute Singleton.storage parsedName id final =
  (Normal
     (Download (outputPathOf id)
        (parsedName (Conversion.originalFilename conv) ++ "_drill_" ++
         intensityText (Conversion.intensity conv) ++ ".mp3")),
   final).
Proof.
  intros Hjob Hleaves w9 w' final Hthere Hfree.
  destruct (singleton_before_last meanwhile id w conv Hleaves Hjob)
    as (before & Hbefore & Hname & Hintensity & Hrun).
  fold w9 in Hbefore, Hrun.
  subst final. rewrite Hrun.
  rewrite (loopBody_last_copied meanwhile id conv w9 before n Hleaves Hbefore Hthere Hfree).
  cbn [snd]. fold w'.
  set (final := with_store _ _).
  assert (Hdisk : disk final !! outputPathOf id = Some (RegularFile n))
    by apply lookup_insert_eq.
  split; [exact Hdisk|].
  unfold downloadRoute, try_catch, bind. rewrite getConversion_singleton.
  assert (Hdone : job id final
                  = Some (spread before (completedUpdate 100 (outputPathOf id) (clock w'))))
    by apply get_set_eq.
  rewrite Hdone. cbn [Conversion.convertedFilePath spread spread_prop completedUpdate
                      Partial.convertedFilePath].
  change (String.eqb (outputPathOf id) "") with false. cbv iota.
  unfold fs_existsSync. rewrite bool_decide_eq_true_2 by (rewrite Hdisk; eauto).
  cbn [negb]. cbv iota. unfold ret.
  cbn [Conversion.originalFilename Conversion.intensity spread spread_prop completedUpdate
       Partial.originalFilename Partial.intensity].
  by rewrite Hname, Hintensity.
Qed.

Lemma download_after_run_witness :
  downloadRoute Singleton.storage id "0b5e55"
    (snd (processAudioFile Singleton.storage idle "0b5e55" uploadedWorld))
  = (Normal (Download "uploads/converted_0b5e55.mp3" "beat.wav_drill_heavy.mp3"),
     snd (processAudioFile Singleton.storage idle "0b5e55" uploadedWorld)).
Proof.
  apply (proj2 (download_after_run idle id "0b5e55" uploadedWorld sampleJob 2097152
                  ltac:(vm_compute; reflexivity) (idle_leaves _)
                  ltac:(vm_compute; reflexivity)
                  ltac:(vm_compute; discriminate))).
Defined.

(** X12. After a run whose last iteration finds neither the original file nor
    anything at the output path, the job is completed and names the output
    path, and a download of it is answered 404 "File not found on disk". *)
Theorem download_after_lost_source meanwhile parsedName id w conv :
  job id w = Some conv ->
  leaves id meanwhile ->
  let w9 := snd (iterations Singleton.storage meanwhile id conv 9 w) in
  let w' := resumed meanwhile 10 w9 in
  let final := snd (processAudioFile Singleton.storage meanwhile id w) in
  disk w' !! Conversion.originalFilePath conv = None ->
  disk w' !! outputPathOf id = None ->
  (exists done,
     job id final = Some done /\
     Conversion.status done = completed /\
     Conversion.convertedFilePath done = Some (outputPathOf id)) /\
  downloadRoute Singleton.storage parsedName id final =
  (Normal (Answered {| statusCode := 404; json := JMessage "File not found on disk" |}),
   final).
Proof.
  intros Hjob Hleaves w9 w' final Habsent Hnothing.
  destruct (singleton_before_last meanwhile id w conv Hleaves Hjob)
    as (before & Hbefore & _ & _ & Hrun).
  fold w9 in Hbefore, Hrun.
  subst final. rewrite Hrun.
  rewrite (loopBody_last_absent meanwhile id conv w9 before Hleaves Hbefore Habsent).
  cbn [snd]. fold w'.
  set (final := with_store _ _).
  assert (Hdone : job id final
                  = Some (spread before (completedUpdate 100 (outputPathOf id) (clock w'))))
    by apply get_set_eq.
  split; [eexists; split; [exact Hdone|done]|].
  unfold downloadRoute, try_catch, bind. rewrite getConversion_singleton, Hdone.
  cbn [Conversion.convertedFilePath spread spread_prop completedUpdate
       Partial.convertedFilePath].
  change (String.eqb (outputPathOf id) "") with false. cbv iota.
  unfold fs_existsSync.
  rewrite bool_decide_eq_false_2; [done|].
  change (disk final) with (disk w'). rewrite Hnothing. intros [? ?]. discriminate.
Qed.

Lemma download_after_lost_source_witness :
  downloadRoute Singleton.storage id "0b5e55"
    (snd (processAudioFile Singleton.storage fileVanishes "0b5e55" uploadedWorld))
  = (Normal (Answered {| statusCode := 404; json := JMessage "File not found on disk" |}),
     snd (processAudioFile Singleton.storage fileVanishes "0b5e55" uploadedWorld)).
Proof.
  apply (proj2 (download_after_lost_source fileVanishes id "0b5e55" uploadedWorld sampleJob
                  ltac:(vm_compute; reflexivity) (fileVanishes_leaves _)
                  ltac:(vm_compute; reflexivity)
                  ltac:(vm_compute; reflexivity))).
Defined.

(** ** The client: polling and the local copy of the job *)

(** X13. The update made while rendering settles at once: a second render with
    the same fetched record changes nothing.  The local copy is replaced
    only by a fetched record of the same job; after the update it has the
    status and the progress of the fetched record of its job, and a
    fetched record of another job is ignored. *)
Theorem integrate_settles fetched current :
  let next := Home.integrate fetched current in
  Home.integrate fetched next = next /\
  (next = current \/ (next = fetched /\ is_Some current)) /\
  (forall s c,
     fetched = Some s -> current = Some c ->
     (Conversion.id s = Conversion.id c ->
      exists c', next = Some c' /\
                 Conversion.id c' = Conversion.id c /\
                 Conversion.status c' = Conversion.status s /\
                 Conversion.progress c' = Conversion.progress s) /\
     (Conversion.id s <> Conversion.id c -> next = current)).
Proof.
  unfold Home.integrate.
  destruct fetched as [s|], current as [c|]; cbv zeta;
    try (split; [done|]; split; [by left|]; intros ? ? ? ?; discriminate).
  destruct (String.eqb_spec (Conversion.id s) (Conversion.id c)) as [Hid|Hid].
  - destruct (decide (Conversion.status s = Conversion.status c)) as [Hs|Hs].
    + rewrite (bool_decide_eq_true_2 _ Hs). cbn [negb orb].
      destruct (Z.eqb_spec (Conversion.progress s) (Conversion.progress c)) as [Hp|Hp];
        cbn [negb].
      * rewrite Hid, String.eqb_refl, (bool_decide_eq_true_2 _ Hs).
        rewrite (proj2 (Z.eqb_eq _ _) Hp). cbn [negb orb].
        split; [done|]. split; [by left|].
        intros ? ? [= <-] [= <-]. split; [|done]. intros _. by exists c.
      * rewrite String.eqb_refl, bool_decide_eq_true_2, Z.eqb_refl by done.
        cbn [negb orb]. split; [done|]. split; [right; eauto|].
        intros ? ? [= <-] [= <-]. split; [|done]. intros _. by exists s.
    + rewrite (bool_decide_eq_false_2 _ Hs). cbn [negb orb].
      rewrite String.eqb_refl, bool_decide_eq_true_2, Z.eqb_refl by done.
      cbn [negb orb]. split; [done|]. split; [right; eauto|].
      intros ? ? [= <-] [= <-]. split; [|done]. intros _. by exists s.
  - apply String.eqb_neq in Hid as Hid'. rewrite Hid'.
    split; [done|]. split; [by left|].
    intros ? ? [= <-] [= <-]. split; [done|]. done.
Qed.

(** X14. Along the life of a job on the in-memory store, the client's rule for
    polling and its rule for offering the download agree with the runner:
    with the record the job has before the last iteration the client keeps
    polling and offers no download; with the record it has at the end of
    the run the client stops polling and offers [/api/download/{id}]. *)
Theorem client_follows_run meanwhile req w j :
  fst (postUpload Singleton.storage req w)
  = Normal {| statusCode := 200; json := JConversion j |} ->
  leaves (Conversion.id j) meanwhile ->
  let id := Conversion.id j in
  let created := snd (postUpload Singleton.storage req w) in
  (forall n, (n < totalSteps)%nat ->
     exists c,
       job id (snd (iterations Singleton.storage meanwhile id j n created)) = Some c /\
       Home.pollingEnabled (Some c) = true /\
       Home.getConvertedAudioUrl (Some c) = None) /\
  (exists c,
     job id (snd (processAudioFile Singleton.storage meanwhile id created)) = Some c /\
     Home.pollingEnabled (Some c) = false /\
     Home.getConvertedAudioUrl (Some c) = Some ("/api/download/" ++ id)).
Proof.
  intros Hcreated Hleaves id created.
  destruct (postUpload_created req w j Hcreated) as (Hjob & Hj & _).
  fold id created in Hjob.
  assert (Hreached : forall n, (n <= totalSteps)%nat ->
    exists c,
      job id (snd (iterations Singleton.storage meanwhile id j n created)) = Some c /\
      phase id j n c).
  { intros n Hn.
    pose proof (iterations_reached (fun _ => false) meanwhile id j created n Hleaves Hjob Hn)
      as Hreached.
    destruct (singleton_step meanwhile id j created j n Hleaves Hjob)
      as (_ & _ & _ & Hnormal & _).
    change (rejectingStorage (fun _ => false)) with Singleton.storage in Hreached.
    destruct (iterations Singleton.storage meanwhile id j n created) as [[[]|e] w'];
      [exact Hreached|discriminate]. }
  split.
  - intros n Hn. destruct (Hreached n ltac:(lia)) as (c & Hc & Hphase).
    exists c. split; [exact Hc|].
    destruct (phase_running id j n c Hj Hn Hphase) as (Hstatus & Hpath & _).
    unfold Home.pollingEnabled, Home.getConvertedAudioUrl. rewrite Hpath.
    split; [destruct Hstatus as [-> | ->]; done|].
    by destruct (Conversion.status c).
  - destruct (Hreached totalSteps ltac:(lia)) as (c & Hc & Hphase).
    exists c. split.
    + destruct (singleton_step meanwhile id j created j 9 Hleaves Hjob)
        as (_ & _ & _ & _ & Hnormal & _).
      revert Hnormal Hc.
      change Singleton.storage with (rejectingStorage (fun _ => false)).
      rewrite (processAudioFile_unfold _ meanwhile id created j Hjob).
      change totalSteps with 10%nat.
      by destruct (iterations _ _ _ _ 10 created) as [[[]|e] w'].
    + destruct (phase_done id j c Hphase) as (Hstatus & _ & Hpath & _).
      destruct (phase_keeps id j totalSteps c Hphase) as (Hid & _).
      unfold Home.pollingEnabled, Home.getConvertedAudioUrl.
      rewrite Hstatus, Hpath, Hid. done.
Qed.

Lemma client_follows_run_witness :
  exists c,
    job "0b5e55" (snd (processAudioFile Singleton.storage idle "0b5e55" uploadedWorld))
    = Some c /\
    Home.pollingEnabled (Some c) = false /\
    Home.getConvertedAudioUrl (Some c) = Some "/api/download/0b5e55".
Proof.
  assert (Hcreated :
    fst (postUpload Singleton.storage sampleRequest emptyWorld)
    = Normal {| statusCode := 200; json := JConversion sampleJob |})
    by (vm_compute; reflexivity).
  exact (proj2 (client_follows_run idle sampleRequest emptyWorld sampleJob Hcreated
                  (idle_leaves _))).
Defined.

(** ** The client: the progress bar *)

Lemma iter_tick_swap target n start :
  Nat.iter (S n) (ProcessingProgress.tick target) start
  = Nat.iter n (ProcessingProgress.tick target) (ProcessingProgress.tick target start).
Proof. by rewrite Nat.iter_succ_r. Qed.

Lemma tick_closer target x :
  2 <= Z.abs (x - target) ->
  Z.abs (ProcessingProgress.tick target x - target) = Z.abs (x - target) - 2 /\
  Z.min x target <= ProcessingProgress.tick target x <= Z.max x target.
Proof.
  intros Hfar. unfold ProcessingProgress.tick.
  destruct (Z.ltb_spec (Z.abs (x - target)) 2); [lia|].
  destruct (Z.ltb_spec x target); lia.
Qed.

Lemma tick_arrives target x :
  Z.abs (x - target) < 2 -> ProcessingProgress.tick target x = target.
Proof.
  intros Hnear. unfold ProcessingProgress.tick.
  by destruct (Z.ltb_spec (Z.abs (x - target)) 2); [|lia].
Qed.

(** X15. The animated value reaches the progress of the job and stays there:
    from a value at distance d of the target, the first ceil(d/2) firings
    of the interval each bring it 2 closer (the last one possibly 1),
    never past the target and never outside the range between the start
    and the target, and from then on every firing leaves it at the
    target. *)
Theorem tick_reaches_target target start :
  let distance := Z.abs (start - target) in
  let firings := Z.to_nat ((distance + 1) / 2) in
  let value k := Nat.iter k (ProcessingProgress.tick target) start in
  (forall k, (firings <= k)%nat -> value k = target) /\
  (forall k, (k < firings)%nat ->
     Z.abs (value k - target) = distance - 2 * Z.of_nat k /\
     Z.min start target <= value k <= Z.max start target).
Proof.
  intros distance firings value.
  assert (Hnear : forall n x, Z.abs (x - target) <= 2 * Z.of_nat n ->
            Nat.iter n (ProcessingProgress.tick target) x = target).
  { induction n as [|n IH]; intros x Hx.
    - simpl. lia.
    - rewrite iter_tick_swap. apply IH.
      destruct (Z.lt_ge_cases (Z.abs (x - target)) 2) as [Hlt|Hge].
      + rewrite tick_arrives by done. lia.
      + destruct (tick_closer target x Hge) as (-> & _). lia. }
  split.
  - intros k Hk. apply Hnear. subst firings distance.
    assert (Z.of_nat (Z.to_nat ((Z.abs (start - target) + 1) / 2)) <= Z.of_nat k) by lia.
    rewrite Z2Nat.id in H by (apply Z.div_pos; lia).
    pose proof (Z.div_mod (Z.abs (start - target) + 1) 2 ltac:(lia)).
    pose proof (Z.mod_pos_bound (Z.abs (start - target) + 1) 2 ltac:(lia)).
    lia.
  - intros k Hk.
    assert (Hfar : 2 * Z.of_nat k + 1 <= distance).
    { subst firings distance.
      assert (Z.of_nat k < Z.of_nat (Z.to_nat ((Z.abs (start - target) + 1) / 2))) by lia.
      rewrite Z2Nat.id in H by (apply Z.div_pos; lia).
      pose proof (Z.div_mod (Z.abs (start - target) + 1) 2 ltac:(lia)).
      pose proof (Z.mod_pos_bound (Z.abs (start - target) + 1) 2 ltac:(lia)).
      lia. }
    clear Hk. induction k as [|k IH].
    + subst value distance. simpl. lia.
    + destruct IH as (Hdist & Hbetween); [lia|].
      subst value. cbv beta in *. rewrite Nat.iter_succ.
      destruct (tick_closer target (Nat.iter k (ProcessingProgress.tick target) start))
        as (Hcloser & Hbounds); [lia|].
      rewrite Hcloser, Hdist. split; [lia|].
      subst distance. lia.
Qed.

(** X16. The step shown for a progress value is the first step of the table
    that the value has not passed: up to 100 there is one, every step in
    front of it lies below the value, and it never moves back when the
    value grows; above 100 there is none and the step shown stays. *)
Theorem stepIndex_first_not_passed target :
  (target <= 100 ->
   0 <= ProcessingProgress.stepIndex target <= 8 /\
   (exists label mark,
      ProcessingProgress.processingSteps
        !! Z.to_nat (ProcessingProgress.stepIndex target) = Some (label, mark) /\
      target <= mark) /\
   (forall i label mark,
      (i < Z.to_nat (ProcessingProgress.stepIndex target))%nat ->
      ProcessingProgress.processingSteps !! i = Some (label, mark) ->
      mark < target) /\
   (forall lower, lower <= target ->
      ProcessingProgress.stepIndex lower <= ProcessingProgress.stepIndex target)) /\
  (100 < target ->
   ProcessingProgress.stepIndex target = -1 /\
   forall currentStep, ProcessingProgress.showStep target currentStep = currentStep).
Proof.
  unfold ProcessingProgress.showStep, ProcessingProgress.stepIndex,
    ProcessingProgress.findIndex, ProcessingProgress.processingSteps.
  cbn [ProcessingProgress.findIndexFrom snd Z.add Pos.add Pos.succ].
  split.
  - intros Htarget.
    repeat match goal with
           | |- context [target <=? ?m] => destruct (Z.leb_spec target m)
           end; try lia.
    all: (split; [lia|]); (split; [eexists _, _; split; [reflexivity|lia]|]).
    all: split;
      [ intros i label mark Hi Hstep;
        repeat (destruct i as [|i]; [injection Hstep as <- <-; lia|]); simpl in Hi; lia
      | intros lower Hlower;
        repeat match goal with
               | |- context [lower <=? ?m] => destruct (Z.leb_spec lower m)
               end; lia ].
  - intros Htarget.
    repeat match goal with
           | |- context [target <=? ?m] => destruct (Z.leb_spec target m)
           end; try lia.
    done.
Qed.

(** ** The client: the waveform *)

Lemma fold_left_mapped {A B C} (f : A -> B -> A) (g : C -> B) l a :
  fold_left f (map g l) a = fold_left (fun a c => f a (g c)) l a.
Proof. revert a. induction l as [|c l IH]; intros a; [done|]. simpl. apply IH. Qed.

Lemma fold_left_agree {A B} (f g : A -> B -> A) l a :
  (forall a x, f a x = g a x) -> fold_left f l a = fold_left g l a.
Proof.
  intros Hfg. revert a. induction l as [|x l IH]; intros a; [done|].
  simpl. by rewrite Hfg, IH.
Qed.

Lemma fold_block rawData start n acc :
  (start + n <= length rawData)%nat ->
  fold_left (fun sum j => SFadd prec emax sum (Waveform.absAt rawData (start + j)))
    (seq 0 n) acc
  = fold_left (fun sum x => SFadd prec emax sum (SFabs x))
      (take n (drop start rawData)) acc.
Proof.
  revert start acc. induction n as [|n IH]; intros start acc Hlen; [done|].
  destruct (lookup_lt_is_Some_2 rawData start ltac:(lia)) as [x Hx].
  rewrite (drop_S _ _ _ Hx). cbn [seq take fold_left].
  rewrite <- seq_shift, fold_left_mapped.
  unfold Waveform.absAt at 2. rewrite Nat.add_0_r, Hx.
  rewrite <- (IH (S start)) by lia.
  apply fold_left_agree. intros sum j. by rewrite Nat.add_succ_r.
Qed.

(** X17. Every bar is computed from its own block of consecutive samples, all
    of them inside the channel data: bar [i] is the sum of the absolute
    values of the samples from [i * size] up to [(i + 1) * size], added
    in that order, divided by [size], where [size] is the length divided
    by 200, rounded down.  There are always 200 bars, and the samples
    after the last block are not read. *)
Theorem filteredData_blocks rawData :
  let size := Waveform.blockSize rawData in
  length (Waveform.filteredData rawData) = 200%nat /\
  forall i, (i < 200)%nat ->
    Waveform.filteredData rawData !! i
    = Some (SFdiv prec emax
              (fold_left (fun sum x => SFadd prec emax sum (SFabs x))
                 (take size (drop (size * i) rawData)) (S754_zero false))
              (number_of_nat size)).
Proof.
  intros size. unfold Waveform.filteredData.
  split; [by rewrite length_map, length_seq|].
  intros i Hi. rewrite list_lookup_fmap, lookup_seq_lt by done. cbn [fmap option_fmap option_map Nat.add].
  unfold Waveform.blockSum. fold size. rewrite fold_block; [done|].
  subst size. unfold Waveform.blockSize, Waveform.samples.
  pose proof (Nat.div_mod_eq (length rawData) 200).
  nia.
Qed.

(** X18. A clip of fewer than 200 samples has blocks of size 0: every bar is
    0 / 0, that is NaN. *)
Theorem filteredData_short_clip rawData :
  (length rawData < 200)%nat ->
  Waveform.filteredData rawData = repeat S754_nan 200.
Proof.
  intros Hshort. unfold Waveform.filteredData, Waveform.blockSum, Waveform.blockSize,
    Waveform.samples.
  rewrite Nat.div_small by done. cbn [seq fold_left Nat.mul].
  reflexivity.
Qed.

Lemma filteredData_short_clip_witness :
  Waveform.filteredData [half; half; half] = repeat S754_nan 200.
Proof. apply filteredData_short_clip. simpl. lia. Defined.

(** ** What a run does to the disk and how long it takes *)

Lemma copyOriginal_shape conv outputPath w :
  exists d c,
    copyOriginal conv outputPath w = (Normal tt, with_console c (with_disk d w)) /\
    forall p, p <> outputPath -> d !! p = disk w !! p.
Proof.
  unfold copyOriginal, try_catch, bind, fs_existsSync, fs_copyFileSync.
  destruct (disk w !! Conversion.originalFilePath conv) as [[n|]|] eqn:Hsrc; simpl;
    rewrite ?Hsrc.
  - destruct (disk w !! outputPath) as [[m|]|] eqn:Hdst; simpl.
    + eexists _, _. split; [reflexivity|]. intros p Hp. by rewrite lookup_insert_ne.
    + exists (disk w). eexists. split; [reflexivity|done].
    + eexists _, _. split; [reflexivity|]. intros p Hp. by rewrite lookup_insert_ne.
  - exists (disk w). eexists. split; [reflexivity|done].
  - exists (disk w). eexists. split; [reflexivity|done].
Qed.

(** The world an iteration leaves is the world in which it resumed, up to
    the store, the console and the output path on disk. *)
Lemma loopBody_shape rejects meanwhile id conv step w :
  exists s c d,
    snd (loopBody (rejectingStorage rejects) meanwhile id conv step w)
    = with_store s (with_console c (with_disk d (resumed meanwhile step w))) /\
    forall p, p <> outputPathOf id -> d !! p = disk (resumed meanwhile step w) !! p.
Proof.
  unfold loopBody, bind, sleep. fold (resumed meanwhile step w).
  set (w0 := resumed meanwhile step w).
  assert (Hupdate : forall updates w1,
    exists s, snd (updateConversion (rejectingStorage rejects) id updates w1)
              = with_store s w1).
  { intros updates w1. simpl. destruct (rejects updates).
    - exists (store w1). by rewrite with_store_same.
    - unfold on_store. destruct (MemStorage.updateConversion id updates (store w1)).
      by eexists. }
  destruct (step =? totalSteps)%nat.
  - destruct (copyOriginal_shape conv (outputPathOf id) w0) as (d & c & -> & Hd).
    unfold new_Date.
    set (w1 := with_console c (with_disk d w0)).
    destruct (Hupdate (completedUpdate (progressOf step) (outputPathOf id) (clock w1)) w1)
      as (s & Hs).
    exists s, c, d. split; [|exact Hd].
    fold w1. rewrite <- Hs. by destruct (updateConversion _ _ _ w1) as [[?|?] ?].
  - destruct (Hupdate (processingUpdate (progressOf step)) w0) as (s & Hs).
    exists s, (console w0), (disk w0). split; [|done].
    replace (with_console (console w0) (with_disk (disk w0) w0)) with w0
      by (by destruct w0).
    rewrite <- Hs. by destruct (updateConversion _ _ _ w0) as [[?|?] ?].
Qed.

Lemma iterations_disk rejects meanwhile id conv n w p :
  p <> outputPathOf id ->
  (forall step w, disk (meanwhile step w) !! p = disk w !! p) ->
  disk (snd (iterations (rejectingStorage rejects) meanwhile id conv n w)) !! p
  = disk w !! p.
Proof.
  intros Hp Hmeanwhile. induction n as [|n IH]; [done|].
  rewrite iterations_S.
  destruct (iterations _ _ _ _ n w) as [[[]|e] w'] eqn:Hrun; simpl in IH; [|done].
  destruct (loopBody_shape rejects meanwhile id conv (S n) w') as (s & c & d & Hshape & Hd).
  rewrite Hshape. cbn [disk with_store with_console with_disk].
  rewrite Hd by done. unfold resumed. by rewrite Hmeanwhile.
Qed.

(** X19. A run of the runner of job [id] writes no file but
    [uploads/converted_{id}.mp3]: any other path that the rest of the
    process leaves alone holds at the end what it held at the start.  In
    particular the uploaded original is never removed. *)
Theorem processAudioFile_disk_frame rejects meanwhile id w p :
  p <> outputPathOf id ->
  (forall step w, disk (meanwhile step w) !! p = disk w !! p) ->
  disk (snd (processAudioFile (rejectingStorage rejects) meanwhile id w)) !! p
  = disk w !! p.
Proof.
  intros Hp Hmeanwhile.
  destruct (job id w) as [conv|] eqn:Hjob.
  - rewrite (processAudioFile_unfold rejects meanwhile id w conv Hjob).
    pose proof (iterations_disk rejects meanwhile id conv totalSteps w p Hp Hmeanwhile)
      as Hdisk.
    destruct (iterations _ _ _ _ totalSteps w) as [[[]|e] w']; simpl in Hdisk; [done|].
    cbv zeta. set (w'' := with_console _ w').
    rewrite <- Hdisk. change (disk w') with (disk w'').
    cbn [updateConversion rejectingStorage].
    destruct (rejects failedUpdate); [done|].
    cbn [updateConversion Singleton.storage]. unfold on_store.
    by destruct (MemStorage.updateConversion id failedUpdate (store w'')).
  - by rewrite processAudioFile_missing.
Qed.

Lemma processAudioFile_disk_frame_witness :
  disk (snd (processAudioFile Singleton.storage idle "0b5e55" uploadedWorld))
    !! "uploads/c0ffee"
  = Some (RegularFile 2097152).
Proof.
  change Singleton.storage with (rejectingStorage (fun _ => false)).
  rewrite processAudioFile_disk_frame.
  - vm_compute. reflexivity.
  - discriminate.
  - reflexivity.
Defined.

Lemma iterations_clock meanwhile id conv n w :
  (forall step w, clock w <= clock (meanwhile step w)) ->
  clock w + 2000 * Z.of_nat n
  <= clock (snd (iterations Singleton.storage meanwhile id conv n w)).
Proof.
  intros Hmeanwhile. induction n as [|n IH]; [simpl; lia|].
  rewrite iterations_S.
  destruct (iterations _ _ _ _ n w) as [[[]|e] w'] eqn:Hrun; simpl in IH.
  - destruct (loopBody_shape (fun _ => false) meanwhile id conv (S n) w')
      as (s & c & d & Hshape & _).
    change (rejectingStorage (fun _ => false)) with Singleton.storage in Hshape.
    rewrite Hshape. cbn [clock with_store with_console with_disk].
    unfold resumed. pose proof (Hmeanwhile (S n) (with_clock (clock w' + 2000) w')) as H.
    cbn [clock with_clock] in H. lia.
  - exfalso.
    change Singleton.storage with (rejectingStorage (fun _ => false)) in Hrun.
    clear IH. revert Hrun. generalize n. clear.
    intros n Hrun.
    assert (Hnormal : forall m w0, exists w1,
      iterations (rejectingStorage (fun _ => false)) meanwhile id conv m w0
      = (Normal tt, w1)).
    { induction m as [|m IHm]; intros w0; [by eexists|].
      rewrite iterations_S. destruct (IHm w0) as (w1 & ->).
      unfold loopBody, bind, sleep.
      destruct (S m =? totalSteps)%nat.
      - destruct (copyOriginal_shape conv (outputPathOf id)
                    (meanwhile (S m) (with_clock (clock w1 + 2000) w1)))
          as (d & c & -> & _).
        unfold new_Date. cbn [updateConversion rejectingStorage Singleton.storage].
        unfold on_store.
        destruct (MemStorage.updateConversion _ _ _). by eexists.
      - cbn [updateConversion rejectingStorage Singleton.storage].
        unfold on_store.
        destruct (MemStorage.updateConversion _ _ _). by eexists. }
    destruct (Hnormal n w) as (w1 & Hw1). congruence.
Qed.

Lemma last_iteration_completes meanwhile id conv w before :
  leaves id meanwhile ->
  job id w = Some before ->
  let w' := resumed meanwhile totalSteps w in
  job id (snd (loopBody Singleton.storage meanwhile id conv totalSteps w))
  = Some (spread before (completedUpdate 100 (outputPathOf id) (clock w'))).
Proof.
  intros Hleaves Hjob w'.
  destruct (disk w' !! Conversion.originalFilePath conv) as [node|] eqn:Hsrc.
  - destruct (fs_copyFileSync (Conversion.originalFilePath conv) (outputPathOf id) w')
      as [[[]|e] w1] eqn:Hcopy.
    + assert (exists n, node = RegularFile n /\ disk w' !! outputPathOf id <> Some Directory)
        as (n & -> & Hfree).
      { revert Hcopy. unfold fs_copyFileSync. rewrite Hsrc.
        destruct node as [n|]; [|discriminate].
        destruct (disk w' !! outputPathOf id) as [[m|]|]; try discriminate;
          intros _; exists n; by split. }
      rewrite (loopBody_last_copied meanwhile id conv w before n Hleaves Hjob Hsrc Hfree).
      apply get_set_eq.
    + rewrite (loopBody_last_copy_fails meanwhile id conv w before node e Hleaves Hjob Hsrc)
        by (by fold w'; rewrite Hcopy).
      apply get_set_eq.
  - rewrite (loopBody_last_absent meanwhile id conv w before Hleaves Hjob Hsrc).
    apply get_set_eq.
Qed.

(** X20. On the in-memory store a job is completed no earlier than ten delays
    of 2000 ms after its runner started, whatever becomes of the file
    copy: when the rest of the process never sets the clock back, the
    completion date is at least 20000 ms after the instant of the start,
    and it is that instant plus 20000 ms when nothing else moves the
    clock. *)
Theorem completion_takes_ten_delays meanwhile id w conv :
  job id w = Some conv ->
  leaves id meanwhile ->
  (forall step w, clock w <= clock (meanwhile step w)) ->
  exists done completedAt,
    job id (snd (processAudioFile Singleton.storage meanwhile id w)) = Some done /\
    Conversion.status done = completed /\
    Conversion.completedAt done = Some completedAt /\
    clock w + 20000 <= completedAt /\
    ((forall step w, clock (meanwhile step w) = clock w) ->
     completedAt = clock w + 20000).
Proof.
  intros Hjob Hleaves Hforward.
  destruct (singleton_before_last meanwhile id w conv Hleaves Hjob)
    as (before & Hbefore & _ & _ & Hrun).
  set (w9 := snd (iterations Singleton.storage meanwhile id conv 9 w)) in *.
  rewrite Hrun.
  rewrite (last_iteration_completes meanwhile id conv w9 before Hleaves Hbefore).
  eexists _, _. split; [reflexivity|]. split; [done|]. split; [reflexivity|].
  pose proof (iterations_clock meanwhile id conv 9 w Hforward) as Hclock. fold w9 in Hclock.
  unfold resumed.
  pose proof (Hforward totalSteps (with_clock (clock w9 + 2000) w9)) as Hlast.
  cbn [clock with_clock] in Hlast.
  split; [lia|].
  intros Hstill. rewrite Hstill. cbn [clock with_clock].
  assert (Hexact : forall n,
    clock (snd (iterations Singleton.storage meanwhile id conv n w))
    = clock w + 2000 * Z.of_nat n).
  { induction n as [|n IH]; [simpl; lia|].
    rewrite iterations_S.
    destruct (iterations Singleton.storage meanwhile id conv n w) as [[[]|e] w'] eqn:Hn;
      simpl in IH.
    - destruct (loopBody_shape (fun _ => false) meanwhile id conv (S n) w')
        as (s & c & d & Hshape & _).
      change (rejectingStorage (fun _ => false)) with Singleton.storage in Hshape.
      rewrite Hshape. cbn [clock with_store with_console with_disk].
      unfold resumed. rewrite Hstill. cbn [clock with_clock]. lia.
    - exfalso.
      destruct (singleton_step meanwhile id conv w conv n Hleaves Hjob)
        as (_ & _ & _ & Hnormal & _).
      rewrite Hn in Hnormal. discriminate. }
  subst w9. rewrite Hexact. lia.
Qed.

Lemma completion_takes_ten_delays_witness :
  exists done,
    job "0b5e55" (snd (processAudioFile Singleton.storage idle "0b5e55" uploadedWorld))
    = Some done /\
    Conversion.completedAt done = Some 21000.
Proof.
  destruct (completion_takes_ten_delays idle "0b5e55" uploadedWorld sampleJob)
    as (done & completedAt & Hdone & _ & Hat & _ & Hexact).
  - vm_compute. reflexivity.
  - apply idle_leaves.
  - intros step w. unfold idle. lia.
  - exists done. split; [exact Hdone|].
    rewrite Hat. f_equal. apply Hexact. reflexivity.
Defined.
